(** * SciFin: synthetic time series and synthetic markets

    A shallow embedding of [timeseries/randomseries.py] (the AR, MA, ARMA and
    random-walk generators) and of [marketdata/simuldata.py] (the market
    simulator, its labelling and the share counts), with the properties the
    specification states about them.

    Conventions of the embedding:
    - Python numbers are an abstract carrier [F] with the operations the
      code applies to them (class [Number]).  No law is assumed of them
      unless a theorem says so ([NumberLaws]), so the recursion theorems
      hold for whatever [+], [-] and [*] compute, IEEE doubles included.
      [/] follows the operand types the way Python dispatches it: on a zero
      divisor builtin numbers raise, NumPy scalars give inf or nan
      ([div_by_zero]); [**] raises or leaves the reals where the power does.
      Doubles themselves are the instance [float64], on the kernel's
      binary64 numbers.
    - A Python list updated in place is a [list F] threaded through the
      loops; [x[i]] and [x[i] = v] check the index the way Python does
      (negative indices wrap, everything else raises [IndexError]).
    - Exceptions are the [Raise] results of the [result] monad; a call that
      prints has an [outcome]: what it printed and how it ended.
    - The global NumPy generator is the stream of standard normal draws it
      will hand out, [rng : nat -> F]; [np.random.normal(loc, scale, size)]
      is [loc + scale * z] on the next [size] draws, refused when
      [scale < 0]. *)

From Stdlib Require Import ZArith QArith Qcanon Qround String DecimalString.
From Stdlib Require Import Floats.
From stdpp Require Import base list.

(* A decimal literal stands for the nearest double, as in Python. *)
Set Warnings "-inexact-float".

Local Open Scope Z_scope.
Local Open Scope nat_scope.

(** ** Exceptions and the error monad *)

Inductive PyError : Type :=
| AssertionError
| IndexError
| ZeroDivisionError
| ValueError (msg : string)
| TypeError
| UnboundLocalError (name : string)
| Exception (msg : string)
| Unmodelled (what : string).   (* no exception of Python's: a value that an
                                   instance of the numbers leaves uncomputed *)

Inductive result (A : Type) : Type :=
| Ok (a : A)
| Raise (e : PyError).
Arguments Ok {A} a.
Arguments Raise {A} e.

Definition result_bind {A B} (f : A -> result B) (m : result A) : result B :=
  match m with
  | Ok a => f a
  | Raise e => Raise e
  end.

#[global] Instance result_mbind : MBind result := @result_bind.
#[global] Instance result_mret : MRet result := @Ok.

(** ** Python numbers *)

Class Number (F : Type) : Type := {
  of_int : Z -> F;             (* an int literal used as a number *)
  add : F -> F -> F;
  sub : F -> F -> F;
  mul : F -> F -> F;
  div : F -> F -> F;           (* the quotient, for a divisor that is not 0 *)
  div_by_zero : F -> F -> result F;
                               (* [a / b] of these numbers when [b == 0]:
                                  builtin [int] and [float] raise
                                  [ZeroDivisionError]; NumPy scalars give inf
                                  or nan under a [RuntimeWarning] *)
  pow : F -> F -> result F;    (* [**]: 0 to a negative power raises
                                  [ZeroDivisionError]; a power that is not a
                                  real number is a [TypeError] for NumPy *)
  sqrt : F -> F;               (* [np.sqrt] *)
  is_zero : F -> bool;         (* [x == 0] *)
  is_negative : F -> bool;     (* [x < 0] *)
  trunc : F -> Z               (* [int(x)]: rounds toward zero *)
}.

Declare Scope num_scope.
Delimit Scope num_scope with num.
Infix "⊕" := add (at level 50, left associativity) : num_scope.
Infix "⊖" := sub (at level 50, left associativity) : num_scope.
Infix "⊗" := mul (at level 40, left associativity) : num_scope.
Local Open Scope num_scope.

Abbreviation zero := (of_int 0).
Abbreviation one := (of_int 1).

(** The laws the value-level theorems need; the structural ones need none. *)
Class NumberLaws (F : Type) `{Number F} : Prop := {
  add_zero_r : forall c : F, c ⊕ zero = c;
  sub_zero_r : forall c : F, c ⊖ zero = c;
  mul_zero_r : forall c : F, c ⊗ zero = zero;
  mul_zero_l : forall c : F, zero ⊗ c = zero;
  mul_one_r : forall c : F, c ⊗ one = c;
  sub_diag_one : one ⊖ one = (zero : F);
  is_zero_zero : is_zero (zero : F) = true;
  is_negative_zero : is_negative (zero : F) = false
}.

(** ** Python lists: indexing, item assignment, loops *)

(** The position a Python index denotes in a sequence of [len] items. *)
Definition py_index (len : nat) (i : Z) : option nat :=
  if (0 <=? i)%Z then
    if (i <? Z.of_nat len)%Z then Some (Z.to_nat i) else None
  else
    if (0 <=? Z.of_nat len + i)%Z then Some (Z.to_nat (Z.of_nat len + i))
    else None.

(** [l[i]] *)
Definition getitem {A} (l : list A) (i : Z) : result A :=
  match py_index (length l) i with
  | Some k => match l !! k with
              | Some v => Ok v
              | None => Raise IndexError
              end
  | None => Raise IndexError
  end.

(** [l[i] = v] *)
Definition setitem {A} (l : list A) (i : Z) (v : A) : result (list A) :=
  match py_index (length l) i with
  | Some k => Ok (<[k := v]> l)
  | None => Raise IndexError
  end.

(** [range(lo, hi, 1)] *)
Definition range (lo hi : nat) : list nat := seq lo (hi - lo).

(** [for i in l: s = body(i, s)] *)
Fixpoint for_each {S} (l : list nat) (body : nat -> S -> result S) (s : S)
  : result S :=
  match l with
  | [] => Ok s
  | i :: l' => s' ← body i s; for_each l' body s'
  end.

(** [[f(i) for i in l]] *)
Fixpoint comprehension {A} (l : list nat) (f : nat -> result A)
  : result (list A) :=
  match l with
  | [] => Ok []
  | i :: l' => v ← f i; vs ← comprehension l' f; Ok (v :: vs)
  end.

(** ** Calls that print *)

(** What the generators print. *)
Inductive message (F : Type) : Type :=
| AR_expected_value (P : nat) (E : F)
| MA_expected_value (Q : Z) (cst : F)
| MA_variance (Q : Z) (V : F) (stdev : F).
Arguments AR_expected_value {F} P E.
Arguments MA_expected_value {F} Q cst.
Arguments MA_variance {F} Q V stdev.

(** A call's effect: what it printed, and what it returned or raised. *)
Record outcome (F A : Type) : Type := {
  stdout : list (message F);
  returned : result A
}.
Arguments stdout {F A} o.
Arguments returned {F A} o.

(** A step that prints nothing. *)
Definition quietly {F A} (r : result A) : outcome F A :=
  {| stdout := []; returned := r |}.

Definition raising {F A} (e : PyError) : outcome F A := quietly (Raise e).

(** [print(m)] *)
Definition print {F} (m : message F) : outcome F unit :=
  {| stdout := [m]; returned := Ok tt |}.

(** [assert(b)] *)
Definition assert {F} (b : bool) : outcome F unit :=
  if b then quietly (Ok tt) else raising AssertionError.

Definition outcome_bind {F A B} (k : A -> outcome F B) (o : outcome F A)
  : outcome F B :=
  match returned o with
  | Ok a => {| stdout := stdout o ++ stdout (k a); returned := returned (k a) |}
  | Raise e => {| stdout := stdout o; returned := Raise e |}
  end.

#[global] Instance outcome_mbind {F} : MBind (outcome F) := @outcome_bind F.
#[global] Instance outcome_mret {F} : MRet (outcome F) :=
  fun A a => quietly (Ok a).

(** ** The generators of [randomseries.py] *)

Definition Timestamp : Type := Z.

(** Modelled from the spec: the series container of
    [timeseries/timeseries.py], which is not among the sources.  A generated
    series is a time axis paired one to one with a value sequence of the
    same length; this is what
    [ts.timeseries(pd.DataFrame(index=data_index, data=x))] holds. *)
Record timeseries (F : Type) : Type := {
  ts_index : list Timestamp;
  ts_data : list F
}.
Arguments ts_index {F} t.
Arguments ts_data {F} t.

Section Generators.
Context {F : Type} `{Number F}.

(** [pd.date_range(start=, end=, freq=)]: the index the dates span. *)
Variable date_range : string -> string -> string -> list Timestamp.

(** The samples [loc + scale * z] of the generator's next [size] draws. *)
Definition normal_draws (loc scale : F) (size : nat) (rng : nat -> F) : list F :=
  map (fun i => loc ⊕ scale ⊗ rng i) (seq 0 size).

(** [np.random.normal(loc, scale, size)] *)
Definition np_normal (loc scale : F) (size : nat) (rng : nat -> F)
  : result (list F) :=
  if is_negative scale then Raise (ValueError "scale < 0")
  else Ok (normal_draws loc scale size rng).

(** [sum(l)]: Python starts from the int 0 and adds from the left. *)
Definition py_sum (l : list F) : F := fold_left add l zero.

(** [a / b] on the caller's numbers: nothing in the code tests the divisor,
    so a zero divisor does what the operand types do with it. *)
Definition truediv (a b : F) : result F :=
  if is_zero b then div_by_zero a b else Ok (div a b).

(** [x[t_ini] = start_values[t_ini]] *)
Definition seed_value (start_values : list F) (t_ini : nat) (x : list F)
  : result (list F) :=
  v ← getitem start_values (Z.of_nat t_ini);
  setitem x (Z.of_nat t_ini) v.

(** *** AutoRegressive *)

(** [x[t] += coeffs[p] * x[t-p-1]] *)
Definition AR_term (coeffs : list F) (t p : nat) (x : list F)
  : result (list F) :=
  xt ← getitem x (Z.of_nat t);
  c ← getitem coeffs (Z.of_nat p);
  xl ← getitem x (Z.of_nat t - Z.of_nat p - 1)%Z;
  setitem x (Z.of_nat t) (xt ⊕ c ⊗ xl).

(** The body of [for t in range(P,T,1)]. *)
Definition AR_step (cst : F) (coeffs a : list F) (P t : nat) (x : list F)
  : result (list F) :=
  at_ ← getitem a (Z.of_nat t);
  x ← setitem x (Z.of_nat t) (cst ⊕ at_);
  for_each (range 0 P) (AR_term coeffs t) x.

(** Lines 39-45: the series [x]. *)
Definition AR_series (start_values : list F) (cst : F) (coeffs a : list F)
    (P T : nat) : result (list F) :=
  let x := replicate T zero in
  x ← for_each (range 0 P) (seed_value start_values) x;
  for_each (range P T) (AR_step cst coeffs a P) x.

Definition AutoRegressive (start_date end_date frequency : string)
    (start_values : list F) (cst : F) (order : Z) (coeffs : list F)
    (sigma : F) (rng : nat -> F) : outcome F (timeseries F) :=
  assert (Z.of_nat (length coeffs) =? order)%Z;;
  assert (Z.of_nat (length start_values) =? order)%Z;;
  let P := length start_values in
  let data_index := date_range start_date end_date frequency in
  let T := length data_index in
  a ← quietly (np_normal zero sigma T rng);
  x ← quietly (AR_series start_values cst coeffs a P T);
  E ← quietly (truediv cst (one ⊖ py_sum coeffs));
  print (AR_expected_value P E);;
  mret {| ts_index := data_index; ts_data := x |}.

(** *** RandomWalk and DriftRandomWalk *)

(** [x[t] = x[t-1] + a[t]] *)
Definition RW_step (a : list F) (t : nat) (x : list F) : result (list F) :=
  xp ← getitem x (Z.of_nat t - 1)%Z;
  at_ ← getitem a (Z.of_nat t);
  setitem x (Z.of_nat t) (xp ⊕ at_).

Definition RW_series (start_value : F) (a : list F) (T : nat)
  : result (list F) :=
  let x := replicate T zero in
  x ← setitem x 0%Z start_value;
  for_each (range 1 T) (RW_step a) x.

Definition RandomWalk (start_date end_date frequency : string)
    (start_value sigma : F) (rng : nat -> F) : outcome F (timeseries F) :=
  let data_index := date_range start_date end_date frequency in
  let T := length data_index in
  a ← quietly (np_normal zero sigma T rng);
  x ← quietly (RW_series start_value a T);
  mret {| ts_index := data_index; ts_data := x |}.

(** [x[t] = drift + x[t-1] + a[t]] *)
Definition DRW_step (drift : F) (a : list F) (t : nat) (x : list F)
  : result (list F) :=
  xp ← getitem x (Z.of_nat t - 1)%Z;
  at_ ← getitem a (Z.of_nat t);
  setitem x (Z.of_nat t) (drift ⊕ xp ⊕ at_).

Definition DRW_series (start_value drift : F) (a : list F) (T : nat)
  : result (list F) :=
  let x := replicate T zero in
  x ← setitem x 0%Z start_value;
  for_each (range 1 T) (DRW_step drift a) x.

Definition DriftRandomWalk (start_date end_date frequency : string)
    (start_value drift sigma : F) (rng : nat -> F)
  : outcome F (timeseries F) :=
  let data_index := date_range start_date end_date frequency in
  let T := length data_index in
  a ← quietly (np_normal zero sigma T rng);
  x ← quietly (DRW_series start_value drift a T);
  mret {| ts_index := data_index; ts_data := x |}.

(** *** MovingAverage *)

(** [if t-q-1 >= 0: x[t] -= coeffs[q] * a[t-q-1]] *)
Definition MA_term (coeffs a : list F) (t q : nat) (x : list F)
  : result (list F) :=
  if (0 <=? Z.of_nat t - Z.of_nat q - 1)%Z then
    xt ← getitem x (Z.of_nat t);
    c ← getitem coeffs (Z.of_nat q);
    al ← getitem a (Z.of_nat t - Z.of_nat q - 1)%Z;
    setitem x (Z.of_nat t) (xt ⊖ c ⊗ al)
  else Ok x.

(** The body of [for t in range(T)]. *)
Definition MA_step (cst : F) (coeffs a : list F) (Q t : nat) (x : list F)
  : result (list F) :=
  at_ ← getitem a (Z.of_nat t);
  x ← setitem x (Z.of_nat t) (cst ⊕ at_);
  for_each (range 0 Q) (MA_term coeffs a t) x.

(** Lines 135-140: the series [x]. *)
Definition MA_series (cst : F) (coeffs a : list F) (Q T : nat)
  : result (list F) :=
  for_each (range 0 T) (MA_step cst coeffs a Q) (replicate T zero).

(** [V += coeffs[q]**2] *)
Definition MA_variance_term (coeffs : list F) (q : nat) (V : F) : result F :=
  c ← getitem coeffs (Z.of_nat q);
  c2 ← pow c (of_int 2);
  Ok (V ⊕ c2).

(** Lines 143-146: [V = (1 + sum of coeffs[q]**2) * sigma**2]. *)
Definition MA_variance_value (coeffs : list F) (sigma : F) (Q : nat)
  : result F :=
  V ← for_each (range 0 Q) (MA_variance_term coeffs) one;
  s2 ← pow sigma (of_int 2);
  Ok (V ⊗ s2).

Definition MovingAverage (start_date end_date frequency : string)
    (cst : F) (order : Z) (coeffs : list F) (sigma : F) (rng : nat -> F)
  : outcome F (timeseries F) :=
  assert (Z.of_nat (length coeffs) =? order)%Z;;
  let Q := order in
  let data_index := date_range start_date end_date frequency in
  let T := length data_index in
  a ← quietly (np_normal zero sigma T rng);
  x ← quietly (MA_series cst coeffs a (Z.to_nat Q) T);
  V ← quietly (MA_variance_value coeffs sigma (Z.to_nat Q));
  print (MA_expected_value Q cst);;
  print (MA_variance Q V (sqrt V));;
  mret {| ts_index := data_index; ts_data := x |}.

(** *** ARMA *)

(** [x[t] += ARcoeffs[p] * x[t-p]] *)
Definition ARMA_AR_term (ARcoeffs : list F) (t p : nat) (x : list F)
  : result (list F) :=
  xt ← getitem x (Z.of_nat t);
  c ← getitem ARcoeffs (Z.of_nat p);
  xl ← getitem x (Z.of_nat t - Z.of_nat p)%Z;
  setitem x (Z.of_nat t) (xt ⊕ c ⊗ xl).

(** [if t-q-1 >= 0: x[t] -= MAcoeffs[q] * x[t-q-1]] *)
Definition ARMA_MA_term (MAcoeffs : list F) (t q : nat) (x : list F)
  : result (list F) :=
  if (0 <=? Z.of_nat t - Z.of_nat q - 1)%Z then
    xt ← getitem x (Z.of_nat t);
    c ← getitem MAcoeffs (Z.of_nat q);
    xl ← getitem x (Z.of_nat t - Z.of_nat q - 1)%Z;
    setitem x (Z.of_nat t) (xt ⊖ c ⊗ xl)
  else Ok x.

(** The body of [for t in range(P,T,1)]. *)
Definition ARMA_step (cst : F) (ARcoeffs MAcoeffs a : list F) (P Q t : nat)
    (x : list F) : result (list F) :=
  at_ ← getitem a (Z.of_nat t);
  x ← setitem x (Z.of_nat t) (cst ⊕ at_);
  x ← for_each (range 0 P) (ARMA_AR_term ARcoeffs t) x;
  for_each (range 0 Q) (ARMA_MA_term MAcoeffs t) x.

(** Lines 181-192: the series [x]. *)
Definition ARMA_series (start_values : list F) (cst : F)
    (ARcoeffs MAcoeffs a : list F) (P Q T : nat) : result (list F) :=
  let x := replicate T zero in
  x ← for_each (range 0 P) (seed_value start_values) x;
  for_each (range P T) (ARMA_step cst ARcoeffs MAcoeffs a P Q) x.

Definition ARMA (start_date end_date frequency : string)
    (start_values : list F) (cst : F) (ARorder : Z) (ARcoeffs : list F)
    (MAorder : Z) (MAcoeffs : list F) (sigma : F) (rng : nat -> F)
  : outcome F (timeseries F) :=
  assert (Z.of_nat (length ARcoeffs) =? ARorder)%Z;;
  assert (Z.of_nat (length MAcoeffs) =? MAorder)%Z;;
  assert (Z.of_nat (length start_values) =? ARorder)%Z;;
  let P := Z.to_nat ARorder in
  let Q := Z.to_nat MAorder in
  let data_index := date_range start_date end_date frequency in
  let T := length data_index in
  a ← quietly (np_normal zero sigma T rng);
  x ← quietly (ARMA_series start_values cst ARcoeffs MAcoeffs a P Q T);
  mret {| ts_index := data_index; ts_data := x |}.

End Generators.

(** ** The market of [simuldata.py] *)

(** Row and column labels of a pandas frame. *)
Inductive Label : Type :=
| IntLabel (n : nat)                      (* a [RangeIndex] entry *)
| StrLabel (s : string)
| PeriodLabel (freq : string) (day : Z).  (* the period holding that day *)

Record DataFrame (F : Type) : Type := {
  columns : list Label;
  index : list Label;
  values : list (list F)                  (* row by row *)
}.
Arguments columns {F} d.
Arguments index {F} d.
Arguments values {F} d.

Record Series : Type := {
  s_index : list Label;
  s_values : list Z
}.

(** [date] after the [try]: parsed, or still the string it was. *)
Inductive date_value : Type :=
| Parsed (day : Z)
| Unparsed (s : string).

(** [str(n)] for an int that is not negative. *)
Definition str_nat (n : nat) : string := NilEmpty.string_of_uint (Nat.to_uint n).

Section Market.
Context {F : Type} `{Number F}.

(** [datetime.strptime(date, "%Y-%m-%d")] as a day count; [None] when it
    raises. *)
Variable strptime : string -> option Z.

(** The samples of a [rows] by [cols] matrix, drawn row by row. *)
Definition normal_matrix_draws (loc scale : F) (rows cols : nat)
    (rng : nat -> F) : list (list F) :=
  map (fun i => map (fun j => loc ⊕ scale ⊗ rng (i * cols + j)) (seq 0 cols))
      (seq 0 rows).

(** [np.random.normal(loc, scale, size=(rows, cols))] *)
Definition np_normal_matrix (loc scale : F) (rows cols : Z) (rng : nat -> F)
  : result (list (list F)) :=
  if is_negative scale then Raise (ValueError "scale < 0")
  else if ((rows <? 0) || (cols <? 0))%Z
  then Raise (ValueError "negative dimensions are not allowed")
  else Ok (normal_matrix_draws loc scale (Z.to_nat rows) (Z.to_nat cols) rng).

(** The rows after the first of [DataFrame.cumprod()], given the one before. *)
Fixpoint cumprod_from (prev : list F) (rows : list (list F)) : list (list F) :=
  match rows with
  | [] => []
  | r :: rows' =>
      let c := zip_with mul prev r in
      c :: cumprod_from c rows'
  end.

(** [DataFrame.cumprod()]: the running product down every column. *)
Definition cumprod (rows : list (list F)) : list (list F) :=
  match rows with
  | [] => []
  | r :: rows' => r :: cumprod_from r rows'
  end.

(** [a / b] on builtin numbers ([int], [float]): a zero divisor raises. *)
Definition builtin_truediv (a b : F) : result F :=
  if is_zero b then Raise ZeroDivisionError else Ok (div a b).

(** [steps_per_year] is a count, a builtin number (12 by default), and so
    is the [1] it divides. *)
Definition create_market (r_ini drift sigma n_years steps_per_year : F)
    (n_scenarios : Z) (rng : nat -> F) : result (DataFrame F) :=
  dt ← builtin_truediv one steps_per_year;
  let n_steps := (trunc (n_years ⊗ steps_per_year) + 1)%Z in
  loc ← pow (one ⊕ drift) dt;
  rets_plus_1 ← np_normal_matrix loc (sigma ⊗ sqrt dt) n_steps n_scenarios rng;
  rets_plus_1 ← setitem rets_plus_1 0%Z (replicate (Z.to_nat n_scenarios) one);
  Ok {| columns := map IntLabel (seq 0 (Z.to_nat n_scenarios));
        index := map IntLabel (seq 0 (Z.to_nat n_steps));
        values := map (map (mul r_ini)) (cumprod rets_plus_1) |}.

(** The [if]/[elif] ladder of lines 62-77: the day of every tick, when some
    branch assigns [date_series].  The [else] branch builds a [ValueError]
    and drops it, so it assigns nothing, like an unknown [interval_type]. *)
Definition date_series_of (date : date_value) (date_type interval_type : string)
    (Nticks : nat) : result (option (list Z)) :=
  let arange := map Z.of_nat (seq 0 Nticks) in
  let N := Z.of_nat Nticks in
  let from (first step : Z) : list Z := map (fun i => first + i * step)%Z arange in
  let shifted (mk : Z -> list Z) : result (option (list Z)) :=
    match date with
    | Parsed d => Ok (Some (mk d))
    | Unparsed _ => Raise TypeError
    end in
  if String.eqb date_type "start" then
    if String.eqb interval_type "D" then shifted (fun d => from d 1%Z)
    else if String.eqb interval_type "M" then shifted (fun d => from d 12%Z)
    else if String.eqb interval_type "Y" then shifted (fun d => from d 365%Z)
    else Ok None
  else if String.eqb date_type "end" then
    if String.eqb interval_type "D" then shifted (fun d => from (d - N)%Z 1%Z)
    else if String.eqb interval_type "M"
    then shifted (fun d => from (d - (N * 365) / 12)%Z 30%Z)
    else if String.eqb interval_type "Y"
    then shifted (fun d => from (d - N * 365)%Z 365%Z)
    else Ok None
  else Ok None.

(** [set_market_names] works on [data] in place and returns [None]: the
    frame as the call leaves it, and how the call ended. *)
Definition set_market_names (data : DataFrame F) (date : string)
    (date_type interval_type : string) : DataFrame F * result unit :=
  let Nticks := length (values data) in
  let Nassets := length (columns data) in
  let data :=
    {| columns := map (fun x => StrLabel ("Asset " ++ str_nat x)) (seq 0 Nassets);
       index := index data;
       values := values data |} in
  let date :=
    match strptime date with
    | Some d => Parsed d
    | None => Unparsed date
    end in
  match date_series_of date date_type interval_type Nticks with
  | Raise e => (data, Raise e)
  | Ok None => (data, Raise (UnboundLocalError "date_series"))
  | Ok (Some date_series) =>
      ({| columns := columns data;
          index := map (PeriodLabel interval_type) date_series;
          values := values data |}, Ok tt)
  end.

(** [Series.min()]: nothing for an empty series (pandas gives NaN). *)
Definition series_min (l : list Z) : option Z :=
  match l with
  | [] => None
  | v :: l' => Some (fold_left Z.min l' v)
  end.

(** [int(np.random.normal(loc=mean, scale=stdv, size=1))], the [k]-th time
    it is called: the generator has handed out [k] draws already. *)
Definition draw_share (mean stdv : F) (rng : nat -> F) (k : nat) : result Z :=
  sample ← np_normal mean stdv 1 (fun i => rng (k + i));
  match sample with
  | [v] => Ok (trunc v)
  | _ => Raise TypeError
  end.

Definition create_market_shares (market : DataFrame F) (mean stdv : F)
    (rng : nat -> F) : result Series :=
  let Nassets := length (columns market) in
  market_shares ← comprehension (range 0 Nassets) (draw_share mean stdv rng);
  let negative :=
    match series_min market_shares with
    | Some m => (m <? 0)%Z
    | None => false
    end in
  if negative
  then Raise (Exception "A negative market share was generated, please launch again.")
  else Ok {| s_index := columns market; s_values := market_shares |}.

End Market.

(** ** Exact numbers

    Rationals in lowest terms: a number system in which the laws of
    arithmetic hold, for the theorems that assume them.  [+], [-], [*] and
    [/] are exact, so a run on fractions is the program's run wherever the
    doubles round nothing (small integers, halves, quarters, ...).  [**] and
    [sqrt] are exact where the value is a fraction and are otherwise the
    real value rounded down to 64 binary places.  A zero divisor raises, as
    for builtin numbers. *)

(** [int(q)] of an exact value: the integer part, toward zero. *)
Definition Q_trunc (q : Q) : Z := Z.quot (Qnum q) (Zpos (Qden q)).

Definition Qc_trunc (q : Qc) : Z := Z.quot (Qnum q) (Zpos (Qden q)).

Definition Qc_is_negative (q : Qc) : bool := (Qnum q <? 0)%Z.

Definition Qc_is_integer (q : Qc) : bool := (Qden q =? 1)%positive.

(** The largest [r >= 0] with [r ^ d <= x], found bit by bit from the top;
    0 when [x < 0]. *)
Definition Z_root (d : positive) (x : Z) : Z :=
  fold_left (fun r b => let r' := (r + 2 ^ Z.of_nat b)%Z in
                        if (r' ^ Zpos d <=? x)%Z then r' else r)
            (rev (seq 0 (S (Z.to_nat (Z.log2 x / Zpos d))))) 0%Z.

(** The [d]-th root of a fraction [n/m]: [rn/rm] when [n] and [m] are the
    [d]-th powers of [rn] and [rm]; otherwise the root of
    [n * m^(d-1) * 2^(64*d)] over [m * 2^64], which is the real root rounded
    down to 64 binary places (0 for a negative fraction, where [np.sqrt]
    has nan). *)
Definition Qc_root (d : positive) (q : Qc) : Qc :=
  let n := Qnum q in
  let m := Zpos (Qden q) in
  let rn := Z_root d n in
  let rm := Z_root d m in
  if ((rn ^ Zpos d =? n) && (rm ^ Zpos d =? m))%Z
  then Q2Qc (rn # Z.to_pos rm)
  else Q2Qc (Z_root d (n * m ^ (Zpos d - 1) * 2 ^ (64 * Zpos d))
             # (Qden q * 2 ^ 64)).

(** [a ** b] for [b = n/d] in lowest terms: the [d]-th root of [a ^ n].  A
    negative base with a fractional exponent leaves the reals, and 0 has no
    negative power. *)
Definition Qc_pow (a b : Qc) : result Qc :=
  let n := Qc_trunc b in
  if negb (Qc_is_integer b) && Qc_is_negative a then Raise TypeError
  else if Qc_is_negative b && Qeq_bool a 0 then Raise ZeroDivisionError
  else if Qc_is_integer b then
    if (0 <=? n)%Z then Ok (Qcpower a (Z.to_nat n))
    else Ok (Qcinv (Qcpower a (Z.to_nat (- n))))
  else
    let y := Qcpower a (Z.abs_nat (Qnum b)) in
    Ok (Qc_root (Qden b) (if Qc_is_negative b then Qcinv y else y)).

Definition Qc_sqrt (a : Qc) : Qc := Qc_root 2 a.

#[global] Instance Qc_number : Number Qc := {
  of_int z := Q2Qc (inject_Z z);
  add := Qcplus;
  sub := Qcminus;
  mul := Qcmult;
  div := Qcdiv;
  div_by_zero _ _ := Raise ZeroDivisionError;
  pow := Qc_pow;
  sqrt := Qc_sqrt;
  is_zero q := Qeq_bool q 0;
  is_negative := Qc_is_negative;
  trunc := Qc_trunc
}.

(** ** Doubles

    IEEE binary64, the numbers the program itself computes with: [+], [-],
    [*], [/] and [np.sqrt] round to the nearest double, as the hardware
    does.  A builtin [float] and a NumPy [float64] scalar hold the same
    doubles and differ in what a zero divisor does; [numpy] tells which of
    the two the caller passed. *)

(** The exact value of a finite double (0 for an infinity or a nan). *)
Definition float_value (x : float) : Q :=
  match Prim2SF x with
  | S754_finite s m e =>
      let v := if (0 <=? e)%Z then inject_Z (Zpos m * 2 ^ e)
               else Zpos m # Z.to_pos (2 ^ (- e)) in
      if s then Qopp v else v
  | _ => 0%Q
  end.

(** [int(x)] of a finite double. *)
Definition float_trunc (x : float) : Z := Q_trunc (float_value x).

(** [float(z)]: the double nearest to an int. *)
Definition float_of_Z (z : Z) : float :=
  SF2Prim (binary_normalize prec emax z 0 false).

(** [x ** y] in the two cases settled before any rounding: everything to
    the power 0 is 1, and 1 to every power is 1.  All other powers go
    through further case analysis to the C library's [pow], whose rounding
    is the platform's; they are outside this instance, and it says so
    instead of inventing a value. *)
Definition float_pow (x y : float) : result float :=
  if (y =? 0)%float then Ok 1%float
  else if (x =? 1)%float then Ok 1%float
  else Raise (Unmodelled "pow of the C library").

Definition float64 (numpy : bool) : Number float := {|
  of_int := float_of_Z;
  add := PrimFloat.add;
  sub := PrimFloat.sub;
  mul := PrimFloat.mul;
  div := PrimFloat.div;
  div_by_zero a b := if numpy then Ok (a / b)%float
                     else Raise ZeroDivisionError;
  pow := float_pow;
  sqrt := PrimFloat.sqrt;
  is_zero x := (x =? 0)%float;
  is_negative x := (x <? 0)%float;
  trunc := float_trunc
|}.

(** A builtin [float], and a NumPy [float64] scalar. *)
Definition py_float : Number float := float64 false.
Definition np_float64 : Number float := float64 true.

(** ** The recursions as the specification writes them

    Sums are taken from the left, one term after the other, the way the
    loops add them; [nth i l zero] reads item [i]. *)

Section Recursions.
Context {F : Type} `{Number F}.

(** [cst + noise[t] + sum over p of coeffs[p] * x[t-p-1]] *)
Definition AR_recursion (cst : F) (coeffs a : list F) (P : nat) (x : list F)
    (t : nat) : F :=
  fold_left (fun acc p => acc ⊕ nth p coeffs zero ⊗ nth (t - p - 1) x zero)
            (seq 0 P) (cst ⊕ nth t a zero).

(** [acc - sum over q with t-q-1 >= 0 of coeffs[q] * lagged[t-q-1]] *)
Definition MA_sum (coeffs lagged : list F) (Q t : nat) (acc : F) : F :=
  fold_left (fun acc q =>
               if q + 1 <=? t
               then acc ⊖ nth q coeffs zero ⊗ nth (t - q - 1) lagged zero
               else acc)
            (seq 0 Q) acc.

(** [cst + noise[t] - sum over q with t-q-1 >= 0 of coeffs[q] * noise[t-q-1]] *)
Definition MA_recursion (cst : F) (coeffs a : list F) (Q t : nat) : F :=
  MA_sum coeffs a Q t (cst ⊕ nth t a zero).

(** The ARMA recursion read as an equation on the output: the [p = 0] term
    is [ARcoeffs[0] * x[t]] with [x[t]] the output value itself. *)
Definition ARMA_literal (cst : F) (ARcoeffs MAcoeffs a : list F) (P Q : nat)
    (x : list F) (t : nat) : F :=
  MA_sum MAcoeffs x Q t
    (fold_left (fun acc p => acc ⊕ nth p ARcoeffs zero ⊗ nth (t - p) x zero)
               (seq 0 P) (cst ⊕ nth t a zero)).

(** The ARMA recursion as the loop runs it: at [p = 0] item [t] still holds
    [cst + noise[t]], and that is what [ARcoeffs[0]] multiplies. *)
Definition ARMA_in_place (cst : F) (ARcoeffs MAcoeffs a : list F) (P Q : nat)
    (x : list F) (t : nat) : F :=
  MA_sum MAcoeffs x Q t
    (fold_left (fun acc p =>
                  acc ⊕ nth p ARcoeffs zero ⊗
                    (if p =? 0 then cst ⊕ nth t a zero else nth (t - p) x zero))
               (seq 0 P) (cst ⊕ nth t a zero)).

End Recursions.

(** ** Sample inputs *)

(** The fraction [n/d] in lowest terms. *)
Definition frac (n : Z) (d : positive) : Qc := Q2Qc (n # d).

(** A generator that only ever draws 0. *)
Definition quiet : nat -> Qc := fun _ => frac 0 1.

(** The same, in doubles. *)
Definition still : nat -> float := fun _ => 0%float.

(** A generator whose first draw is 7 and whose later draws are 0. *)
Definition loud_then_quiet : nat -> Qc :=
  fun i => match i with O => frac 7 1 | S _ => frac 0 1 end.

(** [pd.date_range] on three consecutive days, whatever it is asked. *)
Definition three_dates (_ _ _ : string) : list Timestamp :=
  [18262; 18263; 18264]%Z.

(** A frame of one asset over one tick. *)
Definition one_asset_market : DataFrame Qc :=
  {| columns := [IntLabel 0]; index := [IntLabel 0];
     values := [[frac 100 1]] |}.

(** A [strptime] that accepts one date. *)
Definition one_date (s : string) : option Z :=
  if String.eqb s "2020-01-01" then Some 18262%Z else None.

(** ** What the further properties speak of *)

Section FurtherSpecs.
Context {F : Type} `{Number F}.

(** [start] after [t] steps of drift alone:
    [drift + (... + (drift + start))]. *)
Definition drifted (start drift : F) (t : nat) : F :=
  Nat.iter t (fun v => drift ⊕ v) start.

(** [(1 + sum over q of sq(coeffs[q])) * sq(sigma)], summed from the left. *)
Definition MA_variance_formula (sq : F -> F) (coeffs : list F) (sigma : F) : F :=
  fold_left (fun V c => V ⊕ sq c) coeffs one ⊗ sq sigma.

(** The return drawn for tick [i] of scenario [j], of [cols] scenarios. *)
Definition market_return (loc scale : F) (cols : nat) (rng : nat -> F)
    (i j : nat) : F :=
  loc ⊕ scale ⊗ rng (i * cols + j).

(** [r_ini] times the running product of the returns of ticks [1..i] of
    scenario [j]. *)
Definition price_path (r_ini loc scale : F) (cols : nat) (rng : nat -> F)
    (j i : nat) : F :=
  r_ini ⊗ fold_left (fun c k => c ⊗ market_return loc scale cols rng k j)
                    (seq 1 i) one.

End FurtherSpecs.

(** The day a period label holds. *)
Definition label_day (l : Label) : option Z :=
  match l with
  | PeriodLabel _ d => Some d
  | _ => None
  end.

(** The names [set_market_names] gives to [n] columns. *)
Definition asset_names (n : nat) : list Label :=
  map (fun x => StrLabel ("Asset " ++ str_nat x)) (seq 0 n).

(** The interval types the ladder of [set_market_names] knows. *)
Definition known_interval (interval_type : string) : Prop :=
  interval_type = "D"%string \/ interval_type = "M"%string \/
  interval_type = "Y"%string.

(** Days from one tick to the next, as the ladder has them. *)
Definition tick_step (date_type interval_type : string) : Z :=
  if String.eqb interval_type "D" then 1%Z
  else if String.eqb interval_type "M"
       then (if String.eqb date_type "start" then 12%Z else 30%Z)
  else 365%Z.

(** Days from the last of [N] ticks to the date, in ["end"] mode. *)
Definition end_gap (interval_type : string) (N : Z) : Z :=
  if String.eqb interval_type "D" then 1%Z
  else if String.eqb interval_type "M" then ((N * 365) / 12 - 30 * (N - 1))%Z
  else 365%Z.

(** [pd.date_range] on an interval that holds no date. *)
Definition no_dates (_ _ _ : string) : list Timestamp := [].

(** A generator that draws 0 twice and 7 from then on. *)
Definition quiet_then_loud : nat -> Qc :=
  fun i => if 2 <=? i then frac 7 1 else frac 0 1.

(** A generator that draws 0, 1, 2, ... *)
Definition counting : nat -> Qc := fun i => frac (Z.of_nat i) 1.

(** The same, but 9 at every even place and at place 1. *)
Definition counting_odd : nat -> Qc :=
  fun i => if Nat.even i || (i =? 1) then frac 9 1 else frac (Z.of_nat i) 1.

(** [pd.date_range] on five consecutive days. *)
Definition five_dates (_ _ _ : string) : list Timestamp :=
  [18262; 18263; 18264; 18265; 18266]%Z.

(** [pd.date_range] from one start: three days up to 2020-01-03, five
    days up to any other end. *)
Definition days_until (_ end_date _ : string) : list Timestamp :=
  if String.eqb end_date "2020-01-03" then [18262; 18263; 18264]%Z
  else [18262; 18263; 18264; 18265; 18266]%Z.

(** * Properties *)

(** ** Lists and loops *)

Lemma lookup_map {A B} (f : A -> B) (l : list A) (i : nat) :
  map f l !! i = f <$> (l !! i).
Proof.
  revert i. induction l as [|a l IH]; intros [|i]; simpl; auto.
Qed.

Lemma py_index_of_nat (len k : nat) :
  k < len -> py_index len (Z.of_nat k) = Some k.
Proof.
  intros Hk. unfold py_index.
  destruct (Z.leb_spec 0 (Z.of_nat k)); [|lia].
  destruct (Z.ltb_spec (Z.of_nat k) (Z.of_nat len)); [|lia].
  f_equal. lia.
Qed.

Lemma py_index_past_end (len k : nat) :
  len <= k -> py_index len (Z.of_nat k) = None.
Proof.
  intros Hk. unfold py_index.
  destruct (Z.leb_spec 0 (Z.of_nat k)); [|lia].
  destruct (Z.ltb_spec (Z.of_nat k) (Z.of_nat len)); [lia|reflexivity].
Qed.

Lemma getitem_lookup {A} (l : list A) (k : nat) (v : A) :
  l !! k = Some v -> getitem l (Z.of_nat k) = Ok v.
Proof.
  intros Hv. unfold getitem.
  rewrite py_index_of_nat by (apply lookup_lt_is_Some; eauto).
  now rewrite Hv.
Qed.

Lemma getitem_nth {A} (l : list A) (k : nat) (d : A) :
  k < length l -> getitem l (Z.of_nat k) = Ok (nth k l d).
Proof.
  intros Hk. apply getitem_lookup.
  destruct (nth_lookup_or_length l k d); [assumption|lia].
Qed.

Lemma getitem_past_end {A} (l : list A) (k : nat) :
  length l <= k -> getitem l (Z.of_nat k) = Raise IndexError.
Proof.
  intros Hk. unfold getitem. now rewrite py_index_past_end.
Qed.

Lemma setitem_insert {A} (l : list A) (k : nat) (v : A) :
  k < length l -> setitem l (Z.of_nat k) v = Ok (<[k := v]> l).
Proof.
  intros Hk. unfold setitem. now rewrite py_index_of_nat.
Qed.

Lemma setitem_past_end {A} (l : list A) (k : nat) (v : A) :
  length l <= k -> setitem l (Z.of_nat k) v = Raise IndexError.
Proof.
  intros Hk. unfold setitem. now rewrite py_index_past_end.
Qed.

Lemma nth_insert_ne {A} (l : list A) (i j : nat) (v d : A) :
  i <> j -> nth j (<[i := v]> l) d = nth j l d.
Proof.
  intros Hij. now rewrite !nth_lookup, list_lookup_insert_ne.
Qed.

Lemma nth_agree {A} (x y : list A) (i : nat) (d : A) :
  x !! i = y !! i -> nth i x d = nth i y d.
Proof.
  intros Hxy. now rewrite !nth_lookup, Hxy.
Qed.

Lemma for_each_app {S} (l1 l2 : list nat) (body : nat -> S -> result S) (s : S) :
  for_each (l1 ++ l2) body s = s' ← for_each l1 body s; for_each l2 body s'.
Proof.
  revert s. induction l1 as [|i l1 IH]; intros s; simpl; [reflexivity|].
  destruct (body i s); simpl; auto.
Qed.

Lemma for_each_ext {S} (l : list nat) (f g : nat -> S -> result S) (s : S) :
  (forall i s', In i l -> f i s' = g i s') ->
  for_each l f s = for_each l g s.
Proof.
  revert s. induction l as [|i l IH]; intros s Hfg; simpl; [reflexivity|].
  rewrite (Hfg i s) by (now left).
  destruct (g i s); simpl; [|reflexivity].
  apply IH. intros j s' Hj. apply Hfg. now right.
Qed.

Lemma fold_left_ext_in {A B} (f g : A -> B -> A) (l : list B) (a : A) :
  (forall acc b, In b l -> f acc b = g acc b) ->
  fold_left f l a = fold_left g l a.
Proof.
  revert a. induction l as [|b l IH]; intros a Hfg; simpl; [reflexivity|].
  rewrite (Hfg a b) by (now left).
  apply IH. intros acc b' Hb'. apply Hfg. now right.
Qed.

Section Loops.
Context {F : Type}.

(** A loop whose every pass rewrites item [t] from its current value and
    from the other items leaves the fold of those passes in item [t]. *)
Lemma for_each_accumulate (t : nat) (body : nat -> list F -> result (list F))
    (f : nat -> list F -> F -> F) (ps : list nat) :
  (forall p x v, In p ps -> x !! t = Some v ->
     body p x = Ok (<[t := f p x v]> x)) ->
  (forall p x w v, In p ps -> f p (<[t := w]> x) v = f p x v) ->
  forall x v, x !! t = Some v ->
    for_each ps body x = Ok (<[t := fold_left (fun acc p => f p x acc) ps v]> x).
Proof.
  induction ps as [|p ps IH]; intros Hbody Hoff x v Hv; simpl.
  - f_equal. symmetry. now apply list_insert_id.
  - rewrite (Hbody p x v) by (auto; now left). simpl.
    assert (Ht : t < length x) by (apply lookup_lt_is_Some; eauto).
    rewrite (IH (fun q y u Hq => Hbody q y u (or_intror Hq))
                (fun q y w u Hq => Hoff q y w u (or_intror Hq))
                (<[t := f p x v]> x) (f p x v))
      by (now apply list_lookup_insert_eq).
    rewrite list_insert_insert_eq. do 2 f_equal.
    apply fold_left_ext_in. intros acc q Hq. apply Hoff. now right.
Qed.

(** A loop over [lo, lo+k) whose pass [t] writes item [t] from the items
    before it fills that stretch with a series obeying its own recursion. *)
Lemma for_each_fill (T lo hi : nat) (step : nat -> list F -> result (list F))
    (g : list F -> nat -> F) :
  hi <= T ->
  (forall t x, lo <= t < hi -> length x = T ->
     step t x = Ok (<[t := g x t]> x)) ->
  (forall x y t, lo <= t < hi ->
     (forall i, i < t -> x !! i = y !! i) -> g x t = g y t) ->
  forall k x, lo + k <= hi -> length x = T ->
    exists x', for_each (seq lo k) step x = Ok x' /\
      length x' = T /\
      (forall i, i < lo \/ lo + k <= i -> x' !! i = x !! i) /\
      (forall t, lo <= t < lo + k -> x' !! t = Some (g x' t)).
Proof.
  intros Hhi Hstep Hg. induction k as [|k IH]; intros x Hk Hx.
  - exists x. simpl. repeat split; auto. intros t Ht. lia.
  - destruct (IH x ltac:(lia) Hx) as (x1 & Hrun & Hlen & Hout & Hin).
    rewrite seq_S, for_each_app, Hrun. simpl.
    rewrite Hstep by (auto; lia). simpl.
    exists (<[lo + k := g x1 (lo + k)]> x1). split; [reflexivity|].
    split; [now rewrite length_insert|]. split.
    + intros i Hi. rewrite list_lookup_insert_ne by lia. apply Hout. lia.
    + intros t Ht.
      rewrite (Hg _ x1 t)
        by (try lia; intros i Hi; apply list_lookup_insert_ne; lia).
      destruct (decide (t = lo + k)) as [->|Hne].
      * apply list_lookup_insert_eq. lia.
      * rewrite list_lookup_insert_ne by lia. apply Hin. lia.
Qed.

End Loops.

(** ** The generators *)

Section GeneratorFacts.
Context {F : Type} `{Number F}.
Variable date_range : string -> string -> string -> list Timestamp.

Lemma length_normal_draws (loc scale : F) (size : nat) (rng : nat -> F) :
  length (normal_draws loc scale size rng) = size.
Proof. unfold normal_draws. now rewrite length_map, length_seq. Qed.

Lemma lookup_normal_draws (loc scale : F) (size : nat) (rng : nat -> F)
    (t : nat) :
  t < size ->
  normal_draws loc scale size rng !! t = Some (loc ⊕ scale ⊗ rng t).
Proof.
  intros Ht. unfold normal_draws. now rewrite lookup_map, lookup_seq_lt.
Qed.

(** Binding a step that printed nothing. *)
Lemma bind_quietly_Ok {A B} (a : A) (k : A -> outcome F B) :
  (quietly (Ok a) ≫= k) = k a.
Proof.
  unfold mbind, outcome_mbind, outcome_bind. simpl. now destruct (k a).
Qed.

Lemma bind_quietly_Raise {A B} (e : PyError) (k : A -> outcome F B) :
  (quietly (Raise e) ≫= k) = raising e.
Proof. reflexivity. Qed.

Lemma range_from_zero (n : nat) : range 0 n = seq 0 n.
Proof. unfold range. now rewrite Nat.sub_0_r. Qed.

(** Seeding: the first [P] items become the start values. *)
Lemma seed_loop (start_values x : list F) (T : nat) :
  length x = T -> length start_values <= T ->
  exists x', for_each (range 0 (length start_values))
                      (seed_value start_values) x = Ok x' /\
    length x' = T /\
    (forall i, length start_values <= i -> x' !! i = x !! i) /\
    (forall i, i < length start_values -> x' !! i = start_values !! i).
Proof.
  intros Hx HP. rewrite range_from_zero.
  destruct (for_each_fill T 0 (length start_values) (seed_value start_values)
              (fun _ t => nth t start_values zero) HP) with
    (k := length start_values) (x := x) as (x' & Hrun & Hlen & Hout & Hin);
    auto.
  - intros t y Ht Hy. unfold seed_value.
    rewrite (getitem_nth _ _ zero) by lia. simpl.
    apply setitem_insert. lia.
  - exists x'. split; [exact Hrun|]. split; [exact Hlen|]. split.
    + intros i Hi. apply Hout. right. simpl. lia.
    + intros i Hi. rewrite Hin by lia.
      destruct (nth_lookup_or_length start_values i zero); [auto|lia].
Qed.

(** More start values than dates: the seeding loop runs off the series. *)
Lemma seed_loop_overrun (start_values x : list F) :
  length x < length start_values ->
  for_each (range 0 (length start_values)) (seed_value start_values) x
  = Raise IndexError.
Proof.
  intros HP. rewrite range_from_zero.
  replace (length start_values)
    with (length x + S (length start_values - length x - 1)) at 1 by lia.
  rewrite seq_app, for_each_app.
  destruct (for_each_fill (length x) 0 (length x) (seed_value start_values)
              (fun _ t => nth t start_values zero) (le_n _)) with
    (k := length x) (x := x) as (x' & Hrun & Hlen & _); auto.
  - intros t y Ht Hy. unfold seed_value.
    rewrite (getitem_nth _ _ zero) by lia. simpl.
    apply setitem_insert. lia.
  - rewrite Hrun. simpl. unfold seed_value.
    rewrite (getitem_nth _ _ zero) by lia. simpl.
    rewrite setitem_past_end by lia. reflexivity.
Qed.

Lemma AR_term_pass (coeffs : list F) (t p : nat) (x : list F) (v : F) :
  p < length coeffs -> p < t -> x !! t = Some v ->
  AR_term coeffs t p x
  = Ok (<[t := v ⊕ nth p coeffs zero ⊗ nth (t - p - 1) x zero]> x).
Proof.
  intros Hp Hpt Hv. unfold AR_term.
  assert (Ht : t < length x) by (apply lookup_lt_is_Some; eauto).
  rewrite (getitem_lookup _ _ _ Hv). simpl.
  rewrite (getitem_nth _ _ zero) by assumption. simpl.
  replace (Z.of_nat t - Z.of_nat p - 1)%Z with (Z.of_nat (t - p - 1)) by lia.
  rewrite (getitem_nth _ _ zero) by lia. simpl.
  now apply setitem_insert.
Qed.

Lemma AR_step_fills (cst : F) (coeffs a : list F) (P T t : nat) (x : list F) :
  length coeffs = P -> length a = T -> P <= t < T -> length x = T ->
  AR_step cst coeffs a P t x = Ok (<[t := AR_recursion cst coeffs a P x t]> x).
Proof.
  intros Hc Ha Ht Hx. unfold AR_step.
  rewrite (getitem_nth _ _ zero) by lia. simpl.
  rewrite setitem_insert by lia. simpl.
  rewrite range_from_zero.
  rewrite (for_each_accumulate t (AR_term coeffs t)
             (fun p y v => v ⊕ nth p coeffs zero ⊗ nth (t - p - 1) y zero)
             (seq 0 P)) with (v := cst ⊕ nth t a zero).
  - rewrite list_insert_insert_eq. unfold AR_recursion. do 2 f_equal.
    apply fold_left_ext_in. intros acc p Hp. apply in_seq in Hp.
    now rewrite nth_insert_ne by lia.
  - intros p y v Hp Hv. apply in_seq in Hp. apply AR_term_pass; auto; lia.
  - intros p y w v Hp. apply in_seq in Hp. now rewrite nth_insert_ne by lia.
  - apply list_lookup_insert_eq. lia.
Qed.

Lemma AR_recursion_local (cst : F) (coeffs a : list F) (P : nat)
    (x y : list F) (t : nat) :
  P <= t -> (forall i, i < t -> x !! i = y !! i) ->
  AR_recursion cst coeffs a P x t = AR_recursion cst coeffs a P y t.
Proof.
  intros Ht Hxy. unfold AR_recursion. apply fold_left_ext_in.
  intros acc p Hp. apply in_seq in Hp.
  rewrite (nth_agree x y) by (apply Hxy; lia). reflexivity.
Qed.

Lemma AR_series_runs (start_values : list F) (cst : F) (coeffs a : list F)
    (T : nat) :
  let P := length start_values in
  length coeffs = P -> length a = T -> P <= T ->
  exists x, AR_series start_values cst coeffs a P T = Ok x /\
    length x = T /\
    (forall i, i < P -> x !! i = start_values !! i) /\
    (forall t, P <= t < T -> x !! t = Some (AR_recursion cst coeffs a P x t)).
Proof.
  intros P Hc Ha HP. unfold AR_series.
  destruct (seed_loop start_values (replicate T zero) T)
    as (x1 & Hrun1 & Hlen1 & _ & Hseed); [apply length_replicate|assumption|].
  fold P in Hrun1. rewrite Hrun1. simpl. unfold range.
  destruct (for_each_fill T P T (AR_step cst coeffs a P)
              (AR_recursion cst coeffs a P) (le_n _)) with
    (k := T - P) (x := x1) as (x2 & Hrun2 & Hlen2 & Hout & Hin); auto.
  - intros t y Ht Hy. now apply (AR_step_fills cst coeffs a P T).
  - intros y z t Ht Hyz. apply AR_recursion_local; [lia|assumption].
  - lia.
  - exists x2. split; [exact Hrun2|]. split; [exact Hlen2|]. split.
    + intros i Hi. rewrite Hout by lia. now apply Hseed.
    + intros t Ht. apply Hin. lia.
Qed.

Lemma AR_series_overrun (start_values : list F) (cst : F) (coeffs a : list F)
    (T : nat) :
  T < length start_values ->
  AR_series start_values cst coeffs a (length start_values) T
  = Raise IndexError.
Proof.
  intros HP. unfold AR_series.
  rewrite seed_loop_overrun by (now rewrite length_replicate). reflexivity.
Qed.

(** *** MovingAverage *)

Lemma lag_guard (t q : nat) :
  (0 <=? Z.of_nat t - Z.of_nat q - 1)%Z = (q + 1 <=? t).
Proof.
  destruct (Z.leb_spec 0 (Z.of_nat t - Z.of_nat q - 1));
    destruct (Nat.leb_spec (q + 1) t); auto; lia.
Qed.

Lemma MA_term_pass (coeffs a : list F) (t q : nat) (x : list F) (v : F) :
  q < length coeffs -> t < length a -> x !! t = Some v ->
  MA_term coeffs a t q x
  = Ok (<[t := if q + 1 <=? t
               then v ⊖ nth q coeffs zero ⊗ nth (t - q - 1) a zero
               else v]> x).
Proof.
  intros Hq Ha Hv. unfold MA_term. rewrite lag_guard.
  destruct (Nat.leb_spec (q + 1) t) as [Hqt|Hqt].
  - assert (Ht : t < length x) by (apply lookup_lt_is_Some; eauto).
    rewrite (getitem_lookup _ _ _ Hv). simpl.
    rewrite (getitem_nth _ _ zero) by assumption. simpl.
    replace (Z.of_nat t - Z.of_nat q - 1)%Z with (Z.of_nat (t - q - 1)) by lia.
    rewrite (getitem_nth _ _ zero) by lia. simpl.
    now apply setitem_insert.
  - f_equal. symmetry. now apply list_insert_id.
Qed.

Lemma MA_step_fills (cst : F) (coeffs a : list F) (Q T t : nat) (x : list F) :
  length coeffs = Q -> length a = T -> t < T -> length x = T ->
  MA_step cst coeffs a Q t x = Ok (<[t := MA_recursion cst coeffs a Q t]> x).
Proof.
  intros Hc Ha Ht Hx. unfold MA_step.
  rewrite (getitem_nth _ _ zero) by lia. simpl.
  rewrite setitem_insert by lia. simpl.
  rewrite range_from_zero.
  rewrite (for_each_accumulate t (MA_term coeffs a t)
             (fun q _ v => if q + 1 <=? t
                           then v ⊖ nth q coeffs zero ⊗ nth (t - q - 1) a zero
                           else v)
             (seq 0 Q)) with (v := cst ⊕ nth t a zero).
  - now rewrite list_insert_insert_eq.
  - intros q y v Hq Hv. apply in_seq in Hq. apply MA_term_pass; auto; lia.
  - reflexivity.
  - apply list_lookup_insert_eq. lia.
Qed.

Lemma MA_series_runs (cst : F) (coeffs a : list F) (Q T : nat) :
  length coeffs = Q -> length a = T ->
  exists x, MA_series cst coeffs a Q T = Ok x /\
    length x = T /\
    (forall t, t < T -> x !! t = Some (MA_recursion cst coeffs a Q t)).
Proof.
  intros Hc Ha. unfold MA_series. rewrite range_from_zero.
  destruct (for_each_fill T 0 T (MA_step cst coeffs a Q)
              (fun _ t => MA_recursion cst coeffs a Q t) (le_n _)) with
    (k := T) (x := replicate T (zero : F)) as (x & Hrun & Hlen & _ & Hin).
  - intros t y Ht Hy. apply (MA_step_fills cst coeffs a Q T); auto; lia.
  - reflexivity.
  - lia.
  - apply length_replicate.
  - exists x. split; [exact Hrun|]. split; [exact Hlen|].
    intros t Ht. apply Hin. lia.
Qed.

Lemma MA_variance_value_runs (coeffs : list F) (sigma : F) :
  Forall (fun c => exists c2, pow c (of_int 2) = Ok c2) (sigma :: coeffs) ->
  exists V, MA_variance_value coeffs sigma (length coeffs) = Ok V.
Proof.
  intros Hsquares. apply Forall_cons in Hsquares as [Hsigma Hsquare].
  unfold MA_variance_value. rewrite range_from_zero.
  assert (Hloop : forall k V, k <= length coeffs ->
            exists V', for_each (seq 0 k) (MA_variance_term coeffs) V = Ok V').
  { induction k as [|k IH]; intros V Hk; [now exists V|].
    destruct (IH V ltac:(lia)) as (V1 & HV1).
    rewrite seq_S, for_each_app, HV1. simpl. unfold MA_variance_term.
    rewrite (getitem_nth _ _ zero) by lia. simpl.
    destruct (proj1 (List.Forall_forall _ _) Hsquare (nth k coeffs zero))
      as (c2 & Hc2); [apply nth_In; lia|].
    rewrite Hc2. simpl. eauto. }
  destruct (Hloop (length coeffs) one (le_n _)) as (V & HV).
  rewrite HV. simpl.
  destruct Hsigma as (s2 & Hs2). rewrite Hs2. simpl. eauto.
Qed.

(** *** ARMA *)

Lemma ARMA_AR_term_pass (ARcoeffs : list F) (t p : nat) (x : list F) (v : F) :
  p < length ARcoeffs -> p <= t -> x !! t = Some v ->
  ARMA_AR_term ARcoeffs t p x
  = Ok (<[t := v ⊕ nth p ARcoeffs zero ⊗
                 (if p =? 0 then v else nth (t - p) x zero)]> x).
Proof.
  intros Hp Hpt Hv. unfold ARMA_AR_term.
  assert (Ht : t < length x) by (apply lookup_lt_is_Some; eauto).
  rewrite (getitem_lookup _ _ _ Hv). simpl.
  rewrite (getitem_nth _ _ zero) by assumption. simpl.
  replace (Z.of_nat t - Z.of_nat p)%Z with (Z.of_nat (t - p)) by lia.
  rewrite (getitem_nth _ _ zero) by lia. simpl.
  rewrite setitem_insert by assumption. do 4 f_equal.
  destruct (Nat.eqb_spec p 0) as [->|Hne]; [|reflexivity].
  rewrite Nat.sub_0_r. now apply nth_lookup_Some.
Qed.

Lemma ARMA_MA_term_pass (MAcoeffs : list F) (t q : nat) (x : list F) (v : F) :
  q < length MAcoeffs -> x !! t = Some v ->
  ARMA_MA_term MAcoeffs t q x
  = Ok (<[t := if q + 1 <=? t
               then v ⊖ nth q MAcoeffs zero ⊗ nth (t - q - 1) x zero
               else v]> x).
Proof.
  intros Hq Hv. unfold ARMA_MA_term. rewrite lag_guard.
  destruct (Nat.leb_spec (q + 1) t) as [Hqt|Hqt].
  - assert (Ht : t < length x) by (apply lookup_lt_is_Some; eauto).
    rewrite (getitem_lookup _ _ _ Hv). simpl.
    rewrite (getitem_nth _ _ zero) by assumption. simpl.
    replace (Z.of_nat t - Z.of_nat q - 1)%Z with (Z.of_nat (t - q - 1)) by lia.
    rewrite (getitem_nth _ _ zero) by lia. simpl.
    now apply setitem_insert.
  - f_equal. symmetry. now apply list_insert_id.
Qed.

(** Only the pass [p = 0] reads item [t] itself, and it is the first one:
    the value it reads is the [cst + a[t]] just stored. *)
Lemma AR_pass_zero_reads_start (c : nat -> F) (r : nat -> F) (P : nat) (v0 : F) :
  fold_left (fun acc p => acc ⊕ c p ⊗ (if p =? 0 then acc else r p)) (seq 0 P) v0
  = fold_left (fun acc p => acc ⊕ c p ⊗ (if p =? 0 then v0 else r p)) (seq 0 P) v0.
Proof.
  destruct P as [|P]; [reflexivity|]. simpl.
  apply fold_left_ext_in. intros acc p Hp. apply in_seq in Hp.
  destruct (Nat.eqb_spec p 0); [lia|reflexivity].
Qed.

Lemma MA_sum_insert (coeffs x : list F) (Q t : nat) (w acc : F) :
  MA_sum coeffs (<[t := w]> x) Q t acc = MA_sum coeffs x Q t acc.
Proof.
  unfold MA_sum. apply fold_left_ext_in. intros v q _.
  destruct (Nat.leb_spec (q + 1) t); [|reflexivity].
  now rewrite nth_insert_ne by lia.
Qed.

Lemma ARMA_step_fills (cst : F) (ARcoeffs MAcoeffs a : list F) (P Q T t : nat)
    (x : list F) :
  length ARcoeffs = P -> length MAcoeffs = Q -> length a = T ->
  P <= t < T -> length x = T ->
  ARMA_step cst ARcoeffs MAcoeffs a P Q t x
  = Ok (<[t := ARMA_in_place cst ARcoeffs MAcoeffs a P Q x t]> x).
Proof.
  intros HAR HMA Ha Ht Hx. unfold ARMA_step.
  rewrite (getitem_nth _ _ zero) by lia. simpl.
  rewrite setitem_insert by lia. simpl.
  rewrite !range_from_zero.
  set (v0 := cst ⊕ nth t a zero).
  rewrite (for_each_accumulate t (ARMA_AR_term ARcoeffs t)
             (fun p y v => v ⊕ nth p ARcoeffs zero ⊗
                             (if p =? 0 then v else nth (t - p) y zero))
             (seq 0 P)) with (v := v0); simpl.
  - rewrite list_insert_insert_eq.
    set (v1 := fold_left _ (seq 0 P) v0).
    rewrite (for_each_accumulate t (ARMA_MA_term MAcoeffs t)
               (fun q y v => if q + 1 <=? t
                             then v ⊖ nth q MAcoeffs zero ⊗ nth (t - q - 1) y zero
                             else v)
               (seq 0 Q)) with (v := v1);
      [| | |apply list_lookup_insert_eq; lia].
    + rewrite list_insert_insert_eq. do 2 f_equal.
      change (fold_left _ (seq 0 Q) v1) with (MA_sum MAcoeffs (<[t := v1]> x) Q t v1).
      rewrite MA_sum_insert. unfold ARMA_in_place. f_equal. subst v1.
      rewrite (AR_pass_zero_reads_start (fun p => nth p ARcoeffs zero)
                 (fun p => nth (t - p) (<[t := v0]> x) zero)).
      apply fold_left_ext_in. intros acc p Hp. apply in_seq in Hp.
      destruct (Nat.eqb_spec p 0); [reflexivity|].
      now rewrite nth_insert_ne by lia.
    + intros q y v Hq Hv. apply in_seq in Hq.
      apply ARMA_MA_term_pass; auto; lia.
    + intros q y w v Hq.
      destruct (Nat.leb_spec (q + 1) t); [|reflexivity].
      now rewrite nth_insert_ne by lia.
  - intros p y v Hp Hv. apply in_seq in Hp.
    apply ARMA_AR_term_pass; auto; lia.
  - intros p y w v Hp. apply in_seq in Hp.
    destruct (Nat.eqb_spec p 0); [reflexivity|].
    now rewrite nth_insert_ne by lia.
  - apply list_lookup_insert_eq. lia.
Qed.

Lemma ARMA_in_place_local (cst : F) (ARcoeffs MAcoeffs a : list F) (P Q : nat)
    (x y : list F) (t : nat) :
  P <= t -> (forall i, i < t -> x !! i = y !! i) ->
  ARMA_in_place cst ARcoeffs MAcoeffs a P Q x t
  = ARMA_in_place cst ARcoeffs MAcoeffs a P Q y t.
Proof.
  intros Ht Hxy. unfold ARMA_in_place, MA_sum.
  replace (fold_left _ (seq 0 P) (cst ⊕ nth t a zero))
    with (fold_left (fun acc p =>
                       acc ⊕ nth p ARcoeffs zero ⊗
                         (if p =? 0 then cst ⊕ nth t a zero
                          else nth (t - p) y zero))
                    (seq 0 P) (cst ⊕ nth t a zero)).
  - apply fold_left_ext_in. intros acc q _.
    destruct (Nat.leb_spec (q + 1) t); [|reflexivity].
    rewrite (nth_agree x y) by (apply Hxy; lia). reflexivity.
  - apply fold_left_ext_in. intros acc p Hp. apply in_seq in Hp.
    destruct (Nat.eqb_spec p 0); [reflexivity|].
    rewrite (nth_agree x y) by (apply Hxy; lia). reflexivity.
Qed.

Lemma ARMA_series_runs (start_values : list F) (cst : F)
    (ARcoeffs MAcoeffs a : list F) (T : nat) :
  let P := length start_values in
  let Q := length MAcoeffs in
  length ARcoeffs = P -> length a = T -> P <= T ->
  exists x, ARMA_series start_values cst ARcoeffs MAcoeffs a P Q T = Ok x /\
    length x = T /\
    (forall i, i < P -> x !! i = start_values !! i) /\
    (forall t, P <= t < T ->
       x !! t = Some (ARMA_in_place cst ARcoeffs MAcoeffs a P Q x t)).
Proof.
  intros P Q Hc Ha HP. unfold ARMA_series.
  destruct (seed_loop start_values (replicate T zero) T)
    as (x1 & Hrun1 & Hlen1 & _ & Hseed); [apply length_replicate|assumption|].
  fold P in Hrun1. rewrite Hrun1. simpl. unfold range.
  destruct (for_each_fill T P T (ARMA_step cst ARcoeffs MAcoeffs a P Q)
              (ARMA_in_place cst ARcoeffs MAcoeffs a P Q) (le_n _)) with
    (k := T - P) (x := x1) as (x2 & Hrun2 & Hlen2 & Hout & Hin).
  - intros t y Ht Hy. now apply (ARMA_step_fills cst ARcoeffs MAcoeffs a P Q T).
  - intros y z t Ht Hyz. apply ARMA_in_place_local; [lia|assumption].
  - lia.
  - exact Hlen1.
  - exists x2. split; [exact Hrun2|]. split; [exact Hlen2|]. split.
    + intros i Hi. rewrite Hout by lia. now apply Hseed.
    + intros t Ht. apply Hin. lia.
Qed.

Lemma ARMA_series_overrun (start_values : list F) (cst : F)
    (ARcoeffs MAcoeffs a : list F) (Q T : nat) :
  T < length start_values ->
  ARMA_series start_values cst ARcoeffs MAcoeffs a (length start_values) Q T
  = Raise IndexError.
Proof.
  intros HP. unfold ARMA_series.
  rewrite seed_loop_overrun by (now rewrite length_replicate). reflexivity.
Qed.

End GeneratorFacts.

(** The rationals obey every law the value-level theorems use. *)
#[global] Instance Qc_laws : NumberLaws Qc.
Proof.
  split; simpl.
  - intros c. change (c + 0 = c)%Qc. ring.
  - intros c. change (c - 0 = c)%Qc. ring.
  - intros c. change (c * 0 = 0)%Qc. ring.
  - intros c. change (0 * c = 0)%Qc. ring.
  - intros c. change (c * 1 = c)%Qc. ring.
  - change (1 - 1 = 0)%Qc. ring.
  - reflexivity.
  - reflexivity.
Qed.

Section GeneratorClaims.
Context {F : Type} `{Number F}.
Variable date_range : string -> string -> string -> list Timestamp.

Lemma assert_true {B} (k : unit -> outcome F B) : (assert true ≫= k) = k tt.
Proof. apply bind_quietly_Ok. Qed.

Lemma take_seeded (start_values x : list F) :
  (forall i, i < length start_values -> x !! i = start_values !! i) ->
  take (length start_values) x = start_values.
Proof.
  intros Hseed. apply list_eq. intros i.
  destruct (Nat.lt_ge_cases i (length start_values)) as [Hi|Hi].
  - rewrite lookup_take_lt by assumption. now apply Hseed.
  - rewrite lookup_take_ge by assumption. symmetry.
    now apply lookup_ge_None.
Qed.

(** C2. A valid AR(P) call (both lengths equal the order) returns when
    [sigma] is not negative, there are at least [P] dates and the mean is
    defined; and whatever a valid call returns has its first [P] values
    equal to [start_values] and, at every later index [t],
    [x[t] = cst + noise[t] + sum over p < P of coeffs[p] * x[t-p-1]]. *)
Theorem AutoRegressive_recursion (start_date end_date frequency : string)
    (start_values : list F) (cst : F) (order : Z) (coeffs : list F)
    (sigma : F) (rng : nat -> F) :
  let P := length start_values in
  let T := length (date_range start_date end_date frequency) in
  let noise := normal_draws zero sigma T rng in
  let call := AutoRegressive date_range start_date end_date frequency
                start_values cst order coeffs sigma rng in
  Z.of_nat (length coeffs) = order ->
  Z.of_nat (length start_values) = order ->
  (is_negative sigma = false -> P <= T ->
   is_zero (one ⊖ py_sum coeffs) = false ->
   exists ts, returned call = Ok ts) /\
  (forall ts, returned call = Ok ts ->
     ts_index ts = date_range start_date end_date frequency /\
     length (ts_data ts) = T /\
     take P (ts_data ts) = start_values /\
     forall t, P <= t < T ->
       ts_data ts !! t
       = Some (AR_recursion cst coeffs noise P (ts_data ts) t)).
Proof.
  intros P T noise call Hc Hs. subst call. unfold AutoRegressive.
  rewrite Hc, Hs, Z.eqb_refl, !assert_true. fold T P. unfold np_normal.
  destruct (is_negative sigma);
    [rewrite bind_quietly_Raise; split; [discriminate|intros ts [=]]|].
  rewrite bind_quietly_Ok. fold noise.
  destruct (Nat.le_gt_cases P T) as [HPT|HPT].
  - destruct (AR_series_runs start_values cst coeffs noise T)
      as (x & Hrun & Hlen & Hseed & Hrec);
      [lia|apply length_normal_draws|exact HPT|].
    fold P in Hrun, Hseed, Hrec. rewrite Hrun, bind_quietly_Ok.
    destruct (truediv cst (one ⊖ py_sum coeffs)) as [E|e] eqn:Hdiv.
    + rewrite bind_quietly_Ok. simpl. split; [eauto|].
      intros ts [= <-]. simpl. repeat split; auto.
      now apply take_seeded.
    + rewrite bind_quietly_Raise. split; [|intros ts [=]].
      intros _ _ Hdivisor. unfold truediv in Hdiv.
      rewrite Hdivisor in Hdiv. discriminate.
  - unfold P. rewrite AR_series_overrun, bind_quietly_Raise by exact HPT.
    split.
    + intros _ HPT'. unfold P in *. lia.
    + intros ts [=].
Qed.

(** C3. A valid MA(Q) call returns when [sigma] is not negative and the
    squares in the printed variance ([sigma**2], [coeffs[q]**2]) exist.  At
    every index [t] of the series it returns, [t < Q] included,
    [x[t] = cst + noise[t] - sum over q < Q with t-q-1 >= 0 of
    coeffs[q] * noise[t-q-1]]: only lagged noise is read.  Under the laws
    of arithmetic and with [sigma = 0] the series is [cst] throughout. *)
Theorem MovingAverage_recursion (start_date end_date frequency : string)
    (cst : F) (order : Z) (coeffs : list F) (sigma : F) (rng : nat -> F) :
  let Q := length coeffs in
  let T := length (date_range start_date end_date frequency) in
  let noise := normal_draws zero sigma T rng in
  let call := MovingAverage date_range start_date end_date frequency
                cst order coeffs sigma rng in
  Z.of_nat (length coeffs) = order ->
  (is_negative sigma = false ->
   Forall (fun c => exists c2, pow c (of_int 2) = Ok c2) (sigma :: coeffs) ->
   exists ts, returned call = Ok ts) /\
  (forall ts, returned call = Ok ts ->
     ts_index ts = date_range start_date end_date frequency /\
     length (ts_data ts) = T /\
     (forall t, t < T ->
        ts_data ts !! t = Some (MA_recursion cst coeffs noise Q t)) /\
     (NumberLaws F -> sigma = zero ->
      forall t, t < T -> ts_data ts !! t = Some cst)).
Proof.
  intros Q T noise call Hc. subst call. unfold MovingAverage.
  rewrite Hc, Z.eqb_refl, assert_true. fold T. unfold np_normal.
  destruct (is_negative sigma);
    [rewrite bind_quietly_Raise; split; [discriminate|intros ts [=]]|].
  rewrite bind_quietly_Ok. fold noise.
  rewrite <- Hc, Nat2Z.id. fold Q.
  destruct (MA_series_runs cst coeffs noise Q T)
    as (x & Hrun & Hlen & Hrec); [reflexivity|apply length_normal_draws|].
  rewrite Hrun, bind_quietly_Ok. split.
  - intros _ Hsquare.
    destruct (MA_variance_value_runs coeffs sigma Hsquare) as (V & HV).
    fold Q in HV. rewrite HV, bind_quietly_Ok. simpl. eauto.
  - intros ts. destruct (MA_variance_value coeffs sigma Q) as [V|e];
      [rewrite bind_quietly_Ok|rewrite bind_quietly_Raise; intros [=]].
    simpl. intros [= <-]. simpl. repeat split; auto.
    intros Hlaws -> t Ht. rewrite Hrec by assumption. f_equal.
    assert (Hquiet : forall i, nth i noise zero = zero).
    { intros i. destruct (Nat.lt_ge_cases i T) as [Hi|Hi].
      - erewrite nth_lookup_Some by (now apply lookup_normal_draws).
        now rewrite mul_zero_l, add_zero_r.
      - apply nth_overflow. unfold noise. now rewrite length_normal_draws. }
    unfold MA_recursion, MA_sum. rewrite Hquiet, add_zero_r.
    generalize (seq 0 Q). intros qs.
    induction qs as [|q qs IH]; simpl; [reflexivity|].
    destruct (q + 1 <=? t); [|exact IH].
    now rewrite Hquiet, mul_zero_r, sub_zero_r.
Qed.

(** C1 (amended). A valid ARMA(P,Q) call returns when [sigma] is not
    negative and there are at least [P] dates; whatever a valid call returns
    starts with [start_values], and at every later index [t] holds what the
    loop accumulates in place: [cst + noise[t]], plus [ARcoeffs[0]] times
    that same [cst + noise[t]] (item [t] is read while it is being built),
    plus [ARcoeffs[p] * x[t-p]] for [1 <= p < P], minus
    [MAcoeffs[q] * x[t-q-1]] for [q < Q] with [t-q-1 >= 0]. *)
Theorem ARMA_recursion_in_place (start_date end_date frequency : string)
    (start_values : list F) (cst : F) (ARorder : Z) (ARcoeffs : list F)
    (MAorder : Z) (MAcoeffs : list F) (sigma : F) (rng : nat -> F) :
  let P := length ARcoeffs in
  let Q := length MAcoeffs in
  let T := length (date_range start_date end_date frequency) in
  let noise := normal_draws zero sigma T rng in
  let call := ARMA date_range start_date end_date frequency start_values cst
                ARorder ARcoeffs MAorder MAcoeffs sigma rng in
  Z.of_nat (length ARcoeffs) = ARorder ->
  Z.of_nat (length MAcoeffs) = MAorder ->
  Z.of_nat (length start_values) = ARorder ->
  (is_negative sigma = false -> P <= T -> exists ts, returned call = Ok ts) /\
  (forall ts, returned call = Ok ts ->
     ts_index ts = date_range start_date end_date frequency /\
     length (ts_data ts) = T /\
     take P (ts_data ts) = start_values /\
     forall t, P <= t < T ->
       ts_data ts !! t
       = Some (ARMA_in_place cst ARcoeffs MAcoeffs noise P Q (ts_data ts) t)).
Proof.
  intros P Q T noise call HAR HMA Hs. subst call. unfold ARMA.
  rewrite HAR, HMA, Hs, !Z.eqb_refl, !assert_true. fold T. unfold np_normal.
  destruct (is_negative sigma);
    [rewrite bind_quietly_Raise; split; [discriminate|intros ts [=]]|].
  rewrite bind_quietly_Ok. fold noise.
  rewrite <- HAR, <- HMA, !Nat2Z.id. fold P Q.
  assert (HP : P = length start_values) by (unfold P; lia).
  destruct (Nat.le_gt_cases P T) as [HPT|HPT].
  - destruct (ARMA_series_runs start_values cst ARcoeffs MAcoeffs noise T)
      as (x & Hrun & Hlen & Hseed & Hrec);
      [lia|apply length_normal_draws|lia|].
    rewrite <- HP in Hrun, Hseed, Hrec. fold Q in Hrun, Hrec.
    rewrite Hrun, bind_quietly_Ok. simpl. split; [eauto|].
    intros ts [= <-]. simpl. repeat split; auto.
    rewrite HP. apply take_seeded. now rewrite <- HP.
  - rewrite HP, ARMA_series_overrun, bind_quietly_Raise by lia. split.
    + intros _ HPT'. lia.
    + intros ts [=].
Qed.

(** C5. An AR, MA or ARMA call with a coefficient vector whose length is
    not its order (or, for AR and ARMA, start values whose number is not
    [P]) raises the assertion error and nothing else happens: nothing is
    printed, no noise is drawn, no series is built, whatever the dates and
    the generator. *)
Theorem length_mismatch_raises_first :
  (forall start_date end_date frequency start_values (cst : F) order coeffs
          sigma rng,
     Z.of_nat (length coeffs) <> order \/
     Z.of_nat (length start_values) <> order ->
     AutoRegressive date_range start_date end_date frequency start_values cst
       order coeffs sigma rng = raising AssertionError) /\
  (forall start_date end_date frequency (cst : F) order coeffs sigma rng,
     Z.of_nat (length coeffs) <> order ->
     MovingAverage date_range start_date end_date frequency cst order coeffs
       sigma rng = raising AssertionError) /\
  (forall start_date end_date frequency start_values (cst : F) ARorder ARcoeffs
          MAorder MAcoeffs sigma rng,
     Z.of_nat (length ARcoeffs) <> ARorder \/
     Z.of_nat (length MAcoeffs) <> MAorder \/
     Z.of_nat (length start_values) <> ARorder ->
     ARMA date_range start_date end_date frequency start_values cst ARorder
       ARcoeffs MAorder MAcoeffs sigma rng = raising AssertionError).
Proof.
  split; [|split].
  - intros sd ed fr sv cst order coeffs sigma rng Hbad. unfold AutoRegressive.
    destruct (Z.eqb_spec (Z.of_nat (length coeffs)) order);
      [rewrite assert_true|reflexivity].
    destruct (Z.eqb_spec (Z.of_nat (length sv)) order); [|reflexivity].
    tauto.
  - intros sd ed fr cst order coeffs sigma rng Hbad. unfold MovingAverage.
    destruct (Z.eqb_spec (Z.of_nat (length coeffs)) order); [|reflexivity].
    tauto.
  - intros sd ed fr sv cst ARorder ARcoeffs MAorder MAcoeffs sigma rng Hbad.
    unfold ARMA.
    destruct (Z.eqb_spec (Z.of_nat (length ARcoeffs)) ARorder);
      [rewrite assert_true|reflexivity].
    destruct (Z.eqb_spec (Z.of_nat (length MAcoeffs)) MAorder);
      [rewrite assert_true|reflexivity].
    destruct (Z.eqb_spec (Z.of_nat (length sv)) ARorder); [|reflexivity].
    tauto.
Qed.

(** With the laws of arithmetic, coefficients that sum to 1 make the
    divisor of the mean 0. *)
Lemma unit_sum_zero_divisor `{!NumberLaws F} (coeffs : list F) :
  py_sum coeffs = one -> is_zero (one ⊖ py_sum coeffs) = true.
Proof. intros ->. now rewrite sub_diag_one, is_zero_zero. Qed.

(** C9 (amended). Nothing in an AR call tests the divisor of the mean
    [cst / (1 - sum(coeffs))].  For a valid call (both lengths equal the
    order, [sigma] not negative, at least [P] dates) whose divisor
    [1 - sum(coeffs)] is 0, the call ends as that division does.  Where the
    division raises, as it does for builtin numbers, the call raises the
    same error, has printed nothing and returns no series.  Where it yields
    a value, as it does for NumPy scalars (inf or nan), the call prints
    that value as the mean and returns the series. *)
Theorem AutoRegressive_zero_divisor
    (start_date end_date frequency : string) (start_values : list F) (cst : F)
    (order : Z) (coeffs : list F) (sigma : F) (rng : nat -> F) :
  let P := length start_values in
  let T := length (date_range start_date end_date frequency) in
  let divisor := one ⊖ py_sum coeffs in
  let call := AutoRegressive date_range start_date end_date frequency
                start_values cst order coeffs sigma rng in
  Z.of_nat (length coeffs) = order ->
  Z.of_nat (length start_values) = order ->
  is_negative sigma = false -> P <= T ->
  is_zero divisor = true ->
  (forall e, div_by_zero cst divisor = Raise e -> call = raising e) /\
  (forall E, div_by_zero cst divisor = Ok E ->
     stdout call = [AR_expected_value P E] /\
     exists ts, returned call = Ok ts /\
       ts_index ts = date_range start_date end_date frequency /\
       length (ts_data ts) = T).
Proof.
  intros P T divisor call Hc Hs Hsigma HPT Hdivisor. subst call.
  unfold AutoRegressive.
  rewrite Hc, Hs, Z.eqb_refl, !assert_true. fold T P. unfold np_normal.
  rewrite Hsigma, bind_quietly_Ok.
  destruct (AR_series_runs start_values cst coeffs
              (normal_draws zero sigma T rng) T)
    as (x & Hrun & Hlen & _); [lia|apply length_normal_draws|exact HPT|].
  fold P in Hrun. rewrite Hrun, bind_quietly_Ok.
  unfold truediv. fold divisor. rewrite Hdivisor. split.
  - intros e He. now rewrite He, bind_quietly_Raise.
  - intros E HE. rewrite HE, bind_quietly_Ok. simpl.
    split; [reflexivity|]. eexists. split; [reflexivity|]. simpl.
    split; [reflexivity|exact Hlen].
Qed.

Lemma getitem_agree {A} (l1 l2 : list A) (k : nat) :
  length l1 = length l2 -> l1 !! k = l2 !! k ->
  getitem l1 (Z.of_nat k) = getitem l2 (Z.of_nat k).
Proof.
  intros Hlen Hk. unfold getitem. rewrite Hlen.
  destruct (Nat.lt_ge_cases k (length l2)).
  - rewrite py_index_of_nat by assumption. now rewrite Hk.
  - now rewrite py_index_past_end.
Qed.

Lemma AR_series_noise (start_values : list F) (cst : F) (coeffs a1 a2 : list F)
    (P T : nat) :
  length a1 = length a2 ->
  (forall t, P <= t < T -> a1 !! t = a2 !! t) ->
  AR_series start_values cst coeffs a1 P T
  = AR_series start_values cst coeffs a2 P T.
Proof.
  intros Hlen Hsame. unfold AR_series.
  destruct (for_each (range 0 P) _ _) as [x|e]; simpl; [|reflexivity].
  apply for_each_ext. intros t y Ht. apply in_seq in Ht.
  unfold AR_step. rewrite (getitem_agree a1 a2) by (auto; apply Hsame; lia).
  reflexivity.
Qed.

Lemma RW_series_noise (start_value : F) (a1 a2 : list F) (T : nat) :
  length a1 = length a2 ->
  (forall t, 1 <= t < T -> a1 !! t = a2 !! t) ->
  RW_series start_value a1 T = RW_series start_value a2 T.
Proof.
  intros Hlen Hsame. unfold RW_series.
  destruct (setitem _ _ _) as [x|e]; simpl; [|reflexivity].
  apply for_each_ext. intros t y Ht. apply in_seq in Ht.
  unfold RW_step. rewrite (getitem_agree a1 a2) by (auto; apply Hsame; lia).
  reflexivity.
Qed.

(** C10. An AR(P) call never looks at the first [P] noise values: with two
    noise vectors that agree from index [P] on the call has the same
    outcome, series, printout and errors alike; and a RandomWalk call
    never looks at noise value 0. *)
Theorem noise_prefix_unused (start_date end_date frequency : string)
    (sigma : F) (rng1 rng2 : nat -> F) :
  let T := length (date_range start_date end_date frequency) in
  let noise1 := normal_draws zero sigma T rng1 in
  let noise2 := normal_draws zero sigma T rng2 in
  (forall start_values cst order coeffs,
     (forall t, length start_values <= t < T -> noise1 !! t = noise2 !! t) ->
     AutoRegressive date_range start_date end_date frequency start_values cst
       order coeffs sigma rng1
     = AutoRegressive date_range start_date end_date frequency start_values cst
         order coeffs sigma rng2) /\
  (forall start_value,
     (forall t, 1 <= t < T -> noise1 !! t = noise2 !! t) ->
     RandomWalk date_range start_date end_date frequency start_value sigma rng1
     = RandomWalk date_range start_date end_date frequency start_value sigma
         rng2).
Proof.
  intros T noise1 noise2.
  assert (Hlen : length noise1 = length noise2)
    by (unfold noise1, noise2; now rewrite !length_normal_draws).
  split.
  - intros sv cst order coeffs Hsame. unfold AutoRegressive, np_normal.
    fold T noise1 noise2.
    destruct (is_negative sigma); [reflexivity|].
    rewrite !(bind_quietly_Ok noise1), !(bind_quietly_Ok noise2).
    now rewrite (AR_series_noise sv cst coeffs noise1 noise2).
  - intros start_value Hsame. unfold RandomWalk, np_normal.
    fold T noise1 noise2.
    destruct (is_negative sigma); [reflexivity|].
    rewrite !(bind_quietly_Ok noise1), !(bind_quietly_Ok noise2).
    now rewrite (RW_series_noise start_value noise1 noise2).
Qed.

End GeneratorClaims.

(** ** The market *)

Section MarketClaims.
Context {F : Type} `{Number F}.
Variable strptime : string -> option Z.

Lemma map_replicate {A B} (f : A -> B) (n : nat) (v : A) :
  map f (replicate n v) = replicate n (f v).
Proof. induction n as [|n IH]; simpl; [reflexivity|]. now rewrite IH. Qed.

Lemma length_normal_matrix_draws (loc scale : F) (rows cols : nat)
    (rng : nat -> F) :
  length (normal_matrix_draws loc scale rows cols rng) = rows.
Proof. unfold normal_matrix_draws. now rewrite length_map, length_seq. Qed.

Lemma width_normal_matrix_draws (loc scale : F) (rows cols : nat)
    (rng : nat -> F) :
  Forall (fun row => length row = cols)
         (normal_matrix_draws loc scale rows cols rng).
Proof.
  unfold normal_matrix_draws. apply List.Forall_forall. intros row Hrow.
  apply in_map_iff in Hrow as (i & <- & _).
  now rewrite length_map, length_seq.
Qed.

Lemma cumprod_from_shape (n : nat) (rows : list (list F)) :
  forall prev, length prev = n ->
  Forall (fun row => length row = n) rows ->
  length (cumprod_from prev rows) = length rows /\
  Forall (fun row => length row = n) (cumprod_from prev rows).
Proof.
  induction rows as [|r rows IH]; intros prev Hprev Hrows; simpl.
  - split; [reflexivity|constructor].
  - apply Forall_cons in Hrows as [Hr Hrows'].
    assert (Hc : length (zip_with mul prev r) = n)
      by (rewrite length_zip_with; lia).
    destruct (IH (zip_with mul prev r) Hc Hrows') as (Hlen & Hwide).
    split; [now rewrite Hlen|]. constructor; assumption.
Qed.

(** What a market call does, case by case. *)
Lemma create_market_cases (r_ini drift sigma n_years steps_per_year : F)
    (n_scenarios : Z) (rng : nat -> F) :
  let n_steps := (trunc (n_years ⊗ steps_per_year) + 1)%Z in
  let dt := div one steps_per_year in
  let call := create_market r_ini drift sigma n_years steps_per_year
                n_scenarios rng in
  (is_zero steps_per_year = false ->
   (exists loc, pow (one ⊕ drift) dt = Ok loc) ->
   is_negative (sigma ⊗ sqrt dt) = false ->
   (1 <= n_steps)%Z -> (0 <= n_scenarios)%Z ->
   exists panel, call = Ok panel) /\
  (forall panel, call = Ok panel ->
     (1 <= n_steps)%Z /\ (0 <= n_scenarios)%Z /\
     length (values panel) = Z.to_nat n_steps /\
     Forall (fun row => length row = Z.to_nat n_scenarios) (values panel) /\
     length (columns panel) = Z.to_nat n_scenarios /\
     exists rest,
       values panel
       = replicate (Z.to_nat n_scenarios) (r_ini ⊗ one) :: rest).
Proof.
  intros n_steps dt call. subst call. unfold create_market, builtin_truediv.
  destruct (is_zero steps_per_year); simpl;
    [split; [discriminate|intros panel [=]]|].
  fold n_steps dt.
  destruct (pow (one ⊕ drift) dt) as [loc|e]; simpl;
    [|split; [intros _ (loc & [=])|intros panel [=]]].
  unfold np_normal_matrix.
  destruct (is_negative (sigma ⊗ sqrt dt)); simpl;
    [split; [discriminate|intros panel [=]]|].
  destruct (Z.ltb_spec n_steps 0) as [Hneg|Hsteps]; simpl;
    [split; [lia|intros panel [=]]|].
  destruct (Z.ltb_spec n_scenarios 0) as [Hneg|Hscen]; simpl;
    [split; [lia|intros panel [=]]|].
  set (rets := normal_matrix_draws _ _ _ _ _).
  assert (Hrows : length rets = Z.to_nat n_steps)
    by apply length_normal_matrix_draws.
  assert (Hwide : Forall (fun row => length row = Z.to_nat n_scenarios) rets)
    by apply width_normal_matrix_draws.
  destruct (Z.eq_dec n_steps 0%Z) as [Hzero|Hpos].
  - replace (setitem rets 0%Z _) with (@Raise (list (list F)) IndexError)
      by (symmetry; apply (setitem_past_end rets 0); lia).
    simpl. split; [lia|intros panel [=]].
  - rewrite (setitem_insert rets 0) by lia. simpl.
    destruct rets as [|r0 rets']; [simpl in Hrows; lia|]. simpl.
    split; [eauto|]. intros panel [= <-]. simpl.
    apply Forall_cons in Hwide as [Hr0 Hwide'].
    destruct (cumprod_from_shape (Z.to_nat n_scenarios) rets'
                (replicate (Z.to_nat n_scenarios) one))
      as (Hlen & Hwide''); [apply length_replicate|assumption|].
    split; [lia|]. split; [lia|]. split.
    { rewrite length_map, Hlen. simpl in Hrows. lia. }
    split.
    { constructor.
      - now rewrite length_map, length_replicate.
      - apply List.Forall_forall. intros row Hrow.
        apply in_map_iff in Hrow as (row' & <- & Hrow').
        rewrite length_map.
        now apply (proj1 (List.Forall_forall _ _) Hwide''). }
    split; [now rewrite length_map, length_seq|].
    eexists. now rewrite map_replicate.
Qed.

(** C4. Whatever the initial price, drift, volatility, horizon, sampling
    and draws, the panel a market call returns has [r_ini] in row 0 of
    every scenario column.  (The call returns when the sampling rate is not
    0, the mean return [(1+drift)**dt] exists, the scale is not negative,
    there is at least one row and the scenario count is not negative.) *)
Theorem create_market_first_row `{!NumberLaws F}
    (r_ini drift sigma n_years steps_per_year : F) (n_scenarios : Z)
    (rng : nat -> F) :
  let dt := div one steps_per_year in
  let call := create_market r_ini drift sigma n_years steps_per_year
                n_scenarios rng in
  (is_zero steps_per_year = false ->
   (exists loc, pow (one ⊕ drift) dt = Ok loc) ->
   is_negative (sigma ⊗ sqrt dt) = false ->
   (0 <= trunc (n_years ⊗ steps_per_year))%Z -> (0 <= n_scenarios)%Z ->
   exists panel, call = Ok panel) /\
  (forall panel, call = Ok panel ->
     length (columns panel) = Z.to_nat n_scenarios /\
     values panel !! 0 = Some (replicate (Z.to_nat n_scenarios) r_ini)).
Proof.
  intros dt call.
  destruct (create_market_cases r_ini drift sigma n_years steps_per_year
              n_scenarios rng) as (Hruns & Hshape).
  split.
  - intros Hrate Hloc Hscale Hsteps Hscen. apply Hruns; auto; lia.
  - intros panel Hpanel.
    destruct (Hshape panel Hpanel) as (_ & _ & _ & _ & Hcols & rest & Hrows).
    split; [exact Hcols|]. rewrite Hrows. simpl. now rewrite mul_one_r.
Qed.

Lemma Q_trunc_floor (q : Q) : (0 <= q)%Q -> Q_trunc q = Qfloor q.
Proof.
  destruct q as [n d]. unfold Q_trunc, Qle. simpl.
  intros Hn. apply Z.quot_div_nonneg; lia.
Qed.

(** C8 (amended). The panel a market call returns has
    [int(n_years * steps_per_year) + 1] rows and [n_scenarios] columns in
    every row, where the product is the one the program computes, a
    rounded double for doubles, and [int] rounds it toward zero.  The row
    count is the floor of that computed product plus 1 whenever the
    computed product is not negative: for every reading [value] of the
    numbers as exact values under which [int] takes the integer part.
    (The call returns when the sampling rate is not 0, the mean return
    exists, the scale, the truncated product and the scenario count are
    not negative.) *)
Theorem create_market_shape
    (r_ini drift sigma n_years steps_per_year : F) (n_scenarios : Z)
    (rng : nat -> F) :
  let product := n_years ⊗ steps_per_year in
  let dt := div one steps_per_year in
  let call := create_market r_ini drift sigma n_years steps_per_year
                n_scenarios rng in
  (is_zero steps_per_year = false ->
   (exists loc, pow (one ⊕ drift) dt = Ok loc) ->
   is_negative (sigma ⊗ sqrt dt) = false ->
   (0 <= trunc product)%Z -> (0 <= n_scenarios)%Z ->
   exists panel, call = Ok panel) /\
  (forall panel, call = Ok panel ->
     Z.of_nat (length (values panel)) = (trunc product + 1)%Z /\
     Forall (fun row => Z.of_nat (length row) = n_scenarios) (values panel) /\
     Z.of_nat (length (columns panel)) = n_scenarios /\
     forall value : F -> Q,
       trunc product = Q_trunc (value product) ->
       (0 <= value product)%Q ->
       Z.of_nat (length (values panel)) = (Qfloor (value product) + 1)%Z).
Proof.
  intros product dt call.
  destruct (create_market_cases r_ini drift sigma n_years steps_per_year
              n_scenarios rng) as (Hruns & Hshape).
  fold product in Hruns, Hshape. split.
  - intros Hrate Hloc Hscale Hsteps Hscen. apply Hruns; auto; lia.
  - intros panel Hpanel.
    destruct (Hshape panel Hpanel)
      as (Hpos & Hscen & Hrows & Hwide & Hcols & _).
    assert (Hcount : Z.of_nat (length (values panel))
                     = (trunc product + 1)%Z) by lia.
    split; [exact Hcount|]. split.
    { eapply Forall_impl; [exact Hwide|]. simpl. intros row Hrow. lia. }
    split; [lia|].
    intros value Hvalue Hnonneg.
    now rewrite Hcount, Hvalue, Q_trunc_floor.
Qed.

Lemma fold_min_le (l : list Z) (v : Z) : (fold_left Z.min l v <= v)%Z.
Proof.
  revert v. induction l as [|w l IH]; intros v; simpl; [lia|].
  specialize (IH (Z.min v w)). lia.
Qed.

Lemma fold_min_lower_bound (l : list Z) (v : Z) :
  Forall (fun w => (fold_left Z.min l v <= w)%Z) l.
Proof.
  revert v. induction l as [|w l IH]; intros v; simpl; constructor.
  - pose proof (fold_min_le l (Z.min v w)). lia.
  - exact (IH (Z.min v w)).
Qed.

Lemma fold_min_attained (l : list Z) (v : Z) :
  fold_left Z.min l v = v \/ In (fold_left Z.min l v) l.
Proof.
  revert v. induction l as [|w l IH]; intros v; simpl; [now left|].
  destruct (IH (Z.min v w)) as [Hm|Hm]; [|now right; right].
  rewrite Hm. destruct (Z.min_spec v w) as [[_ ->]|[_ ->]]; auto.
Qed.

(** The series minimum is below every value, and is one of them. *)
Lemma series_min_spec (l : list Z) (m : Z) :
  series_min l = Some m -> In m l /\ Forall (fun w => (m <= w)%Z) l.
Proof.
  destruct l as [|v l]; simpl; [discriminate|]. intros [= <-]. split.
  - destruct (fold_min_attained l v) as [->|Hin]; auto.
  - constructor; [apply fold_min_le|apply fold_min_lower_bound].
Qed.

Lemma comprehension_map {A} (l : list nat) (f : nat -> result A) (g : nat -> A) :
  (forall k, In k l -> f k = Ok (g k)) ->
  comprehension l f = Ok (map g l).
Proof.
  induction l as [|k l IH]; intros Hf; simpl; [reflexivity|].
  rewrite (Hf k) by (now left). simpl.
  rewrite IH by (intros j Hj; apply Hf; now right). reflexivity.
Qed.

Lemma draw_share_truncates (mean stdv : F) (rng : nat -> F) (k : nat) :
  is_negative stdv = false ->
  draw_share mean stdv rng k = Ok (trunc (mean ⊕ stdv ⊗ rng k)).
Proof.
  intros Hscale. unfold draw_share, np_normal. rewrite Hscale. simpl.
  now rewrite Nat.add_0_r.
Qed.

Lemma draw_share_refused (mean stdv : F) (rng : nat -> F) (k : nat) :
  is_negative stdv = true ->
  draw_share mean stdv rng k = Raise (ValueError "scale < 0").
Proof.
  intros Hscale. unfold draw_share, np_normal. now rewrite Hscale.
Qed.

(** C6 (amended). A share-count call with a truncated draw below zero
    raises, returning nothing: no retry, no clamping.  A call that returns
    gives one count per asset column, under the market's column labels,
    each count the truncated draw of its asset and none of them negative;
    a count may be 0. *)
Theorem create_market_shares_not_negative (market : DataFrame F)
    (mean stdv : F) (rng : nat -> F) :
  let draw (k : nat) := mean ⊕ stdv ⊗ rng k in
  let call := create_market_shares market mean stdv rng in
  (is_negative stdv = false ->
   (exists k, k < length (columns market) /\ (trunc (draw k) < 0)%Z) ->
   exists msg, call = Raise (Exception msg)) /\
  (forall shares, call = Ok shares ->
     s_index shares = columns market /\
     length (s_values shares) = length (columns market) /\
     (forall k, k < length (columns market) ->
        s_values shares !! k = Some (trunc (draw k))) /\
     Forall (fun v => (0 <= v)%Z) (s_values shares)).
Proof.
  intros draw call. subst call. unfold create_market_shares.
  rewrite range_from_zero.
  destruct (is_negative stdv) eqn:Hscale.
  - split; [discriminate|].
    destruct (length (columns market)) as [|n]; simpl.
    + intros shares [= <-]. simpl. repeat split; auto. intros k Hk. lia.
    + rewrite draw_share_refused by assumption. intros shares [=].
  - rewrite (comprehension_map _ _ (fun k => trunc (draw k)))
      by (intros k _; now apply draw_share_truncates).
    simpl.
    set (counts := map _ (seq 0 (length (columns market)))).
    assert (Hcount : forall k, k < length (columns market) ->
              counts !! k = Some (trunc (draw k))).
    { intros k Hk. unfold counts. now rewrite lookup_map, lookup_seq_lt. }
    assert (Hlen : length counts = length (columns market))
      by (unfold counts; now rewrite length_map, length_seq).
    destruct (series_min counts) as [m|] eqn:Hmin.
    + destruct (series_min_spec counts m Hmin) as (Hin & Hlow).
      destruct (Z.ltb_spec m 0) as [Hneg|Hpos]; split.
      * intros _ _. eauto.
      * intros shares [=].
      * intros _ (k & Hk & Hdraw). exfalso.
        assert (Hmk : (m <= trunc (draw k))%Z).
        { apply (proj1 (List.Forall_forall _ _) Hlow (trunc (draw k))).
          apply list_elem_of_In, list_elem_of_lookup. eauto. }
        lia.
      * intros shares [= <-]. simpl.
        split; [reflexivity|]. split; [exact Hlen|]. split; [exact Hcount|].
        apply List.Forall_forall. intros v Hv.
        pose proof (proj1 (List.Forall_forall _ _) Hlow v Hv) as Hmv.
        simpl in Hmv. lia.
    + destruct counts as [|v counts']; [|discriminate]. split.
      * intros _ (k & Hk & _). specialize (Hcount k Hk). discriminate.
      * intros shares [= <-]. simpl.
        split; [reflexivity|]. split; [exact Hlen|]. split; [exact Hcount|].
        constructor.
Qed.

(** C7. A labelling call whose [date_type] is neither ["start"] nor ["end"]
    does fail, but not with the error the code builds for it: the
    [ValueError] is never raised, the columns are renamed all the same, and
    the call dies on the unassigned [date_series]. *)
Theorem set_market_names_unknown_date_type (data : DataFrame F)
    (date date_type interval_type : string) :
  date_type <> "start"%string -> date_type <> "end"%string ->
  let (data', ended) := set_market_names strptime data date date_type
                          interval_type in
  ended = Raise (UnboundLocalError "date_series") /\
  ended <> Raise (ValueError "date_type choice is not recognized.") /\
  columns data'
  = map (fun x => StrLabel ("Asset " ++ str_nat x))
        (seq 0 (length (columns data))).
Proof.
  intros Hstart Hend. unfold set_market_names, date_series_of.
  destruct (String.eqb_spec date_type "start"); [contradiction|].
  destruct (String.eqb_spec date_type "end"); [contradiction|].
  simpl. split; [reflexivity|]. split; [discriminate|reflexivity].
Qed.

End MarketClaims.

(** ** Squares of exact numbers *)

(** Squares always exist. *)
Lemma Qc_square_defined (c : Qc) : exists c2, pow c (of_int 2) = Ok c2.
Proof.
  simpl. unfold Qc_pow.
  change (Qc_is_integer (Q2Qc (inject_Z 2))) with true.
  change (Qc_is_negative (Q2Qc (inject_Z 2))) with false.
  simpl. eauto.
Qed.

(** ** Sample runs *)

Ltac same_fractions :=
  repeat first [reflexivity | apply Qc_is_canon; reflexivity | f_equal].

(** AR(1) from 5 with [cst = 1] and coefficient 1/2; the first draw, 7, is
    never read. *)
Example AutoRegressive_run :
  AutoRegressive three_dates "2020-01-01" "2020-01-03" "D"
    [frac 5 1] (frac 1 1) 1 [frac 1 2] (frac 1 1) loud_then_quiet
  = {| stdout := [AR_expected_value 1 (frac 2 1)];
       returned := Ok {| ts_index := [18262; 18263; 18264]%Z;
                         ts_data := [frac 5 1; frac 7 2; frac 11 4] |} |}.
Proof. vm_compute. same_fractions. Qed.

(** MA(2) on the noise 1, 2, 3: [1+1], [1+2-2*1], [1+3-2*2-3*1]. *)
Example MovingAverage_run :
  returned (MovingAverage three_dates "2020-01-01" "2020-01-03" "D"
              (frac 1 1) 2 [frac 2 1; frac 3 1] (frac 1 1)
              (fun i => frac (Z.of_nat i + 1) 1))
  = Ok {| ts_index := [18262; 18263; 18264]%Z;
          ts_data := [frac 2 1; frac 1 1; frac (-3) 1] |}.
Proof. vm_compute. same_fractions. Qed.

(** Two years at one step a year, two scenarios, returns drawn as
    [[1,2],[3,4],[5,6]]: row 0 becomes [[1,1]] before the running product. *)
Example create_market_run :
  create_market (frac 100 1) (frac 0 1) (frac 1 1) (frac 2 1) (frac 1 1) 2
                (fun i => frac (Z.of_nat i) 1)
  = Ok {| columns := [IntLabel 0; IntLabel 1];
          index := [IntLabel 0; IntLabel 1; IntLabel 2];
          values := [[frac 100 1; frac 100 1];
                     [frac 300 1; frac 400 1];
                     [frac 1500 1; frac 2400 1]] |}.
Proof. vm_compute. same_fractions. Qed.

(** In doubles 0.7 + 0.2 + 0.1 is not 1, it is 0.9999999999999999: an
    AR(3) call with these coefficients divides by [2**-53] and prints
    9007199254740992.0 as its mean, on builtin floats too. *)
Example AutoRegressive_rounded_unit_root :
  @AutoRegressive float py_float three_dates "2020-01-01" "2020-01-03" "D"
    [5%float; 4%float; 3%float] 1%float 3
    [0.7%float; 0.2%float; 0.1%float] 1%float still
  = {| stdout := [AR_expected_value 3 9007199254740992%float];
       returned := Ok {| ts_index := [18262; 18263; 18264]%Z;
                         ts_data := [5%float; 4%float; 3%float] |} |}.
Proof. vm_compute. reflexivity. Qed.

(** In doubles [0.29 * 100] is 28.999999999999996: the panel has 29 rows,
    not the 30 the decimal product 29 would give. *)
Example create_market_rounded_product :
  exists panel,
    @create_market float py_float 100%float 0%float 0.15%float 0.29%float
                   100%float 2 still = Ok panel /\
    length (values panel) = 29 /\
    (Qfloor ((29 # 100) * 100) + 1 = 30)%Z.
Proof.
  eexists. split; [vm_compute; reflexivity|]. split; reflexivity.
Qed.

(** One monthly tick ending on day 18262: it is dated 30 days earlier. *)
Example set_market_names_run :
  set_market_names one_date one_asset_market "2020-01-01" "end" "M"
  = ({| columns := [StrLabel "Asset 0"];
        index := [PeriodLabel "M" 18232];
        values := [[frac 100 1]] |}, Ok tt).
Proof. vm_compute. same_fractions. Qed.

(** ** The claims on sample inputs *)

(** C1, as stated, fails.  ARMA(1,0) on three dates, start value 5,
    [cst = 1], AR coefficient 2, no noise: the loop returns [5, 3, 3],
    while the recursion read on the output asks [x[1] = 1 + 2 * x[1]],
    which is 7 at [x[1] = 3]. *)
Lemma ARMA_literal_recursion_fails :
  let noise := normal_draws zero (frac 0 1) 3 quiet in
  exists ts,
    returned (ARMA three_dates "2020-01-01" "2020-01-03" "D"
                [frac 5 1] (frac 1 1) 1 [frac 2 1] 0 [] (frac 0 1) quiet)
    = Ok ts /\
    ts_data ts = [frac 5 1; frac 3 1; frac 3 1] /\
    ARMA_literal (frac 1 1) [frac 2 1] [] noise 1 0 (ts_data ts) 1 = frac 7 1 /\
    ts_data ts !! 1
    <> Some (ARMA_literal (frac 1 1) [frac 2 1] [] noise 1 0 (ts_data ts) 1).
Proof.
  intros noise. eexists. split; [vm_compute; reflexivity|]. simpl ts_data.
  split; [reflexivity|]. split; [apply Qc_is_canon; reflexivity|].
  intros Heq. apply (f_equal (fmap this)) in Heq. vm_compute in Heq.
  discriminate.
Qed.

Lemma ARMA_recursion_in_place_witness :
  let noise := normal_draws zero (frac 0 1) 3 quiet in
  exists ts,
    returned (ARMA three_dates "2020-01-01" "2020-01-03" "D"
                [frac 5 1] (frac 1 1) 1 [frac 2 1] 0 [] (frac 0 1) quiet)
    = Ok ts /\
    take 1 (ts_data ts) = [frac 5 1] /\
    ts_data ts !! 1
    = Some (ARMA_in_place (frac 1 1) [frac 2 1] [] noise 1 0 (ts_data ts) 1).
Proof.
  intros noise.
  pose proof (ARMA_recursion_in_place three_dates "2020-01-01" "2020-01-03" "D"
                [frac 5 1] (frac 1 1) 1 [frac 2 1] 0 [] (frac 0 1) quiet)
    as Hclaim.
  cbv zeta in Hclaim.
  destruct Hclaim as [Hruns Hrec]; [reflexivity|reflexivity|reflexivity|].
  destruct Hruns as [ts Hts]; [reflexivity|simpl; lia|].
  destruct (Hrec ts Hts) as (_ & _ & Hseed & Hlater).
  exists ts. split; [exact Hts|]. split; [exact Hseed|].
  apply Hlater. simpl. lia.
Defined.

Lemma AutoRegressive_recursion_witness :
  let noise := normal_draws zero (frac 1 1) 3 loud_then_quiet in
  exists ts,
    returned (AutoRegressive three_dates "2020-01-01" "2020-01-03" "D"
                [frac 5 1] (frac 1 1) 1 [frac 2 1] (frac 1 1) loud_then_quiet)
    = Ok ts /\
    take 1 (ts_data ts) = [frac 5 1] /\
    ts_data ts !! 2
    = Some (AR_recursion (frac 1 1) [frac 2 1] noise 1 (ts_data ts) 2).
Proof.
  intros noise.
  pose proof (AutoRegressive_recursion three_dates "2020-01-01" "2020-01-03"
                "D" [frac 5 1] (frac 1 1) 1 [frac 2 1] (frac 1 1)
                loud_then_quiet) as Hclaim.
  cbv zeta in Hclaim.
  destruct Hclaim as [Hruns Hrec]; [reflexivity|reflexivity|].
  destruct Hruns as [ts Hts]; [reflexivity|simpl; lia|reflexivity|].
  destruct (Hrec ts Hts) as (_ & _ & Hseed & Hlater).
  exists ts. split; [exact Hts|]. split; [exact Hseed|].
  apply Hlater. simpl. lia.
Defined.

Lemma MovingAverage_recursion_witness :
  exists ts,
    returned (MovingAverage three_dates "2020-01-01" "2020-01-03" "D"
                (frac 3 1) 2 [frac 1 2; frac 1 4] (frac 0 1) loud_then_quiet)
    = Ok ts /\
    ts_data ts = [frac 3 1; frac 3 1; frac 3 1].
Proof.
  pose proof (MovingAverage_recursion three_dates "2020-01-01" "2020-01-03"
                "D" (frac 3 1) 2 [frac 1 2; frac 1 4] (frac 0 1)
                loud_then_quiet) as Hclaim.
  cbv zeta in Hclaim.
  destruct Hclaim as [Hruns Hrec]; [reflexivity|].
  destruct Hruns as [ts Hts];
    [reflexivity|repeat constructor; apply Qc_square_defined|].
  destruct (Hrec ts Hts) as (_ & Hlen & _ & Hflat).
  exists ts. split; [exact Hts|].
  specialize (Hflat Qc_laws eq_refl).
  apply list_eq. intros [|[|[|t]]].
  - apply Hflat. simpl. lia.
  - apply Hflat. simpl. lia.
  - apply Hflat. simpl. lia.
  - simpl. apply lookup_ge_None. rewrite Hlen. simpl. lia.
Defined.

Lemma create_market_first_row_witness :
  exists panel,
    create_market (frac 100 1) (frac 7 100) (frac 15 100) (frac 5 2)
                  (frac 1 1) 3 loud_then_quiet = Ok panel /\
    values panel !! 0 = Some [frac 100 1; frac 100 1; frac 100 1].
Proof.
  pose proof (create_market_first_row (frac 100 1) (frac 7 100) (frac 15 100)
                (frac 5 2) (frac 1 1) 3 loud_then_quiet) as Hclaim.
  cbv zeta in Hclaim. destruct Hclaim as [Hruns Hrow].
  destruct Hruns as [panel Hpanel];
    [reflexivity|eexists; vm_compute; reflexivity|reflexivity
    |vm_compute; discriminate|lia|].
  exists panel. split; [exact Hpanel|]. apply (Hrow panel Hpanel).
Defined.

Lemma length_mismatch_raises_first_witness :
  AutoRegressive three_dates "2020-01-01" "2020-01-03" "D"
    [frac 5 1] (frac 1 1) 2 [frac 2 1] (frac 1 1) quiet
  = raising AssertionError.
Proof.
  apply (proj1 (length_mismatch_raises_first three_dates)).
  left. simpl. lia.
Defined.

(** C6, as stated, fails.  One asset, mean 1/2, deviation 1 and a draw of
    0: the sample 1/2 truncates to 0, which is not below 0, so the call
    returns a share count that is not strictly positive. *)
Lemma create_market_shares_zero_count :
  exists shares,
    create_market_shares one_asset_market (frac 1 2) (frac 1 1) quiet
    = Ok shares /\
    s_values shares = [0%Z] /\
    ~ Forall (fun v => (0 < v)%Z) (s_values shares).
Proof.
  eexists. split; [vm_compute; reflexivity|]. simpl.
  split; [reflexivity|].
  intros Hpos. apply Forall_cons in Hpos as [Hpos _]. lia.
Qed.

Lemma create_market_shares_not_negative_witness :
  exists shares,
    create_market_shares one_asset_market (frac 1 2) (frac 1 1) quiet
    = Ok shares /\
    Forall (fun v => (0 <= v)%Z) (s_values shares).
Proof.
  pose proof (create_market_shares_not_negative one_asset_market (frac 1 2)
                (frac 1 1) quiet) as Hclaim.
  cbv zeta in Hclaim. destruct Hclaim as [_ Hret].
  eexists. split; [vm_compute; reflexivity|].
  apply Hret. vm_compute. reflexivity.
Defined.

Lemma set_market_names_unknown_date_type_witness :
  "middle"%string <> "start"%string /\
  "middle"%string <> "end"%string /\
  snd (set_market_names one_date one_asset_market "2020-01-01" "middle" "D")
  = Raise (UnboundLocalError "date_series").
Proof.
  split; [discriminate|]. split; [discriminate|].
  pose proof (set_market_names_unknown_date_type one_date one_asset_market
                "2020-01-01" "middle" "D") as Hclaim.
  destruct (set_market_names one_date one_asset_market "2020-01-01" "middle" "D")
    as [data' ended].
  apply Hclaim; discriminate.
Defined.

(** C8, as stated, fails.  Half a year back at one step per year, in
    doubles: [int(-0.5) + 1] is 1 and the call returns a panel of one row,
    while [floor(-0.5) + 1] is 0. *)
Lemma create_market_floor_fails :
  exists panel,
    @create_market float py_float 100%float 0%float 0%float (-0.5)%float
                   1%float 2 still = Ok panel /\
    Z.of_nat (length (values panel)) = 1%Z /\
    (Qfloor (float_value (-0.5 * 1)%float) + 1 = 0)%Z /\
    Z.of_nat (length (values panel))
    <> (Qfloor (float_value (-0.5 * 1)%float) + 1)%Z.
Proof.
  eexists. split; [vm_compute; reflexivity|]. simpl.
  split; [reflexivity|]. split; [reflexivity|]. vm_compute. discriminate.
Qed.

(** Seven tenths of a year at ten steps a year, in doubles: the product
    [0.7 * 10] rounds to 7.0, so the panel has 8 rows, the floor of the
    computed product plus 1, although the exact product of the two doubles
    lies below 7. *)
Lemma create_market_shape_witness :
  exists panel,
    @create_market float py_float 100%float 0%float 0.15%float 0.7%float
                   10%float 2 still = Ok panel /\
    Z.of_nat (length (values panel)) = 8%Z /\
    Forall (fun row => Z.of_nat (length row) = 2%Z) (values panel) /\
    Z.of_nat (length (values panel))
    = (Qfloor (float_value (0.7 * 10)%float) + 1)%Z /\
    (Qfloor (float_value 0.7%float * float_value 10%float) + 1 = 7)%Z.
Proof.
  pose proof (@create_market_shape float py_float 100%float 0%float
                0.15%float 0.7%float 10%float 2 still) as Hclaim.
  cbv zeta in Hclaim. destruct Hclaim as [Hruns Hshape].
  destruct Hruns as [panel Hpanel];
    [reflexivity|eexists; vm_compute; reflexivity|reflexivity
    |vm_compute; discriminate|lia|].
  destruct (Hshape panel Hpanel) as (Hrows & Hwide & _ & Hfloor).
  exists panel. split; [exact Hpanel|]. split; [exact Hrows|].
  split; [exact Hwide|]. split; [|reflexivity].
  apply (Hfloor float_value); [reflexivity|vm_compute; discriminate].
Defined.

(** AR(2) on builtin floats with coefficients 0.5 and 0.5: the divisor of
    the mean is 0 and the call raises, having printed nothing. *)
Lemma AutoRegressive_zero_divisor_witness :
  @AutoRegressive float py_float three_dates "2020-01-01" "2020-01-03" "D"
    [5%float; 4%float] 1%float 2 [0.5%float; 0.5%float] 1%float still
  = raising ZeroDivisionError.
Proof.
  pose proof (@AutoRegressive_zero_divisor float py_float three_dates
                "2020-01-01" "2020-01-03" "D" [5%float; 4%float] 1%float 2
                [0.5%float; 0.5%float] 1%float still) as Hclaim.
  cbv zeta in Hclaim.
  destruct Hclaim as [Hraises _];
    [reflexivity|reflexivity|reflexivity|simpl; lia|reflexivity|].
  apply Hraises. reflexivity.
Defined.

(** C9, as stated, fails.  The same call on NumPy scalars: the coefficients
    sum to 1, and the call raises nothing; it prints inf as the mean and
    returns the series. *)
Lemma AutoRegressive_unit_root_prints_inf :
  @py_sum float np_float64 [0.5%float; 0.5%float] = 1%float /\
  @AutoRegressive float np_float64 three_dates "2020-01-01" "2020-01-03" "D"
    [5%float; 4%float] 1%float 2 [0.5%float; 0.5%float] 1%float still
  = {| stdout := [AR_expected_value 2 infinity];
       returned := Ok {| ts_index := [18262; 18263; 18264]%Z;
                         ts_data := [5%float; 4%float; 5.5%float] |} |}.
Proof. split; vm_compute; reflexivity. Qed.

Lemma noise_prefix_unused_witness :
  AutoRegressive three_dates "2020-01-01" "2020-01-03" "D"
    [frac 5 1] (frac 1 1) 1 [frac 1 2] (frac 1 1) loud_then_quiet
  = AutoRegressive three_dates "2020-01-01" "2020-01-03" "D"
      [frac 5 1] (frac 1 1) 1 [frac 1 2] (frac 1 1) quiet.
Proof.
  pose proof (noise_prefix_unused three_dates "2020-01-01" "2020-01-03" "D"
                (frac 1 1) loud_then_quiet quiet) as Hclaim.
  cbv zeta in Hclaim. destruct Hclaim as [HAR _].
  apply HAR. intros [|[|[|t]]] Ht; simpl in Ht; try lia; reflexivity.
Defined.

(** * Further properties *)

(** ** The random walks *)

Section WalkFacts.
Context {F : Type} `{Number F}.
Variable date_range : string -> string -> string -> list Timestamp.

Lemma RW_step_fills (a : list F) (T t : nat) (x : list F) :
  length a = T -> 1 <= t < T -> length x = T ->
  RW_step a t x = Ok (<[t := nth (t - 1) x zero ⊕ nth t a zero]> x).
Proof.
  intros Ha Ht Hx. unfold RW_step.
  replace (Z.of_nat t - 1)%Z with (Z.of_nat (t - 1)) by lia.
  rewrite (getitem_nth _ _ zero) by lia. simpl.
  rewrite (getitem_nth _ _ zero) by lia. simpl.
  apply setitem_insert. lia.
Qed.

Lemma DRW_step_fills (drift : F) (a : list F) (T t : nat) (x : list F) :
  length a = T -> 1 <= t < T -> length x = T ->
  DRW_step drift a t x
  = Ok (<[t := drift ⊕ nth (t - 1) x zero ⊕ nth t a zero]> x).
Proof.
  intros Ha Ht Hx. unfold DRW_step.
  replace (Z.of_nat t - 1)%Z with (Z.of_nat (t - 1)) by lia.
  rewrite (getitem_nth _ _ zero) by lia. simpl.
  rewrite (getitem_nth _ _ zero) by lia. simpl.
  apply setitem_insert. lia.
Qed.

(** A walk: item 0 is set, every later item is made from the one before. *)
Lemma walk_runs (step : nat -> list F -> result (list F)) (f : F -> F -> F)
    (start_value : F) (a : list F) (T : nat) :
  (forall t x, 1 <= t < T -> length x = T ->
     step t x = Ok (<[t := f (nth (t - 1) x zero) (nth t a zero)]> x)) ->
  1 <= T ->
  exists x,
    (x0 ← setitem (replicate T zero) 0%Z start_value;
     for_each (range 1 T) step x0) = Ok x /\
    length x = T /\
    x !! 0 = Some start_value /\
    (forall t, 1 <= t < T ->
       x !! t = Some (f (nth (t - 1) x zero) (nth t a zero))).
Proof.
  intros Hstep HT.
  rewrite (setitem_insert _ 0) by (rewrite length_replicate; lia). simpl.
  unfold range.
  destruct (for_each_fill T 1 T step
              (fun x t => f (nth (t - 1) x zero) (nth t a zero)) (le_n _))
    with (k := T - 1) (x := <[0 := start_value]> (replicate T (zero : F)))
    as (x & Hrun & Hlen & Hout & Hin).
  - exact Hstep.
  - intros y z t Ht Hyz. rewrite (nth_agree y z) by (apply Hyz; lia).
    reflexivity.
  - lia.
  - now rewrite length_insert, length_replicate.
  - exists x. split; [exact Hrun|]. split; [exact Hlen|]. split.
    + rewrite Hout by lia. apply list_lookup_insert_eq.
      rewrite length_replicate. lia.
    + intros t Ht. apply Hin. lia.
Qed.

Lemma RW_series_runs (start_value : F) (a : list F) (T : nat) :
  length a = T -> 1 <= T ->
  exists x, RW_series start_value a T = Ok x /\
    length x = T /\
    x !! 0 = Some start_value /\
    (forall t, 1 <= t < T ->
       x !! t = Some (nth (t - 1) x zero ⊕ nth t a zero)).
Proof.
  intros Ha HT. unfold RW_series.
  apply (walk_runs (RW_step a) add start_value a T); [|exact HT].
  intros t x Ht Hx. now apply (RW_step_fills a T).
Qed.

Lemma DRW_series_runs (start_value drift : F) (a : list F) (T : nat) :
  length a = T -> 1 <= T ->
  exists x, DRW_series start_value drift a T = Ok x /\
    length x = T /\
    x !! 0 = Some start_value /\
    (forall t, 1 <= t < T ->
       x !! t = Some (drift ⊕ nth (t - 1) x zero ⊕ nth t a zero)).
Proof.
  intros Ha HT. unfold DRW_series.
  apply (walk_runs (DRW_step drift a) (fun v n => drift ⊕ v ⊕ n)
           start_value a T); [|exact HT].
  intros t x Ht Hx. now apply (DRW_step_fills drift a T).
Qed.

Lemma walk_series_no_dates (start_value : F) (step : nat -> list F -> result (list F)) :
  (x0 ← setitem (replicate 0 (zero : F)) 0%Z start_value;
   for_each (range 1 0) step x0) = Raise IndexError.
Proof. reflexivity. Qed.

(** X1. A RandomWalk call returns when [sigma] is not negative and there
    is a date; the series it returns starts at [start_value], every later
    value is the one before plus the noise of its index, and the call
    prints nothing. *)
Theorem RandomWalk_recursion (start_date end_date frequency : string)
    (start_value sigma : F) (rng : nat -> F) :
  let T := length (date_range start_date end_date frequency) in
  let noise := normal_draws zero sigma T rng in
  let call := RandomWalk date_range start_date end_date frequency
                start_value sigma rng in
  (is_negative sigma = false -> 1 <= T -> exists ts, returned call = Ok ts) /\
  (forall ts, returned call = Ok ts ->
     ts_index ts = date_range start_date end_date frequency /\
     length (ts_data ts) = T /\
     ts_data ts !! 0 = Some start_value /\
     forall t, 1 <= t < T ->
       ts_data ts !! t
       = Some (nth (t - 1) (ts_data ts) zero ⊕ nth t noise zero)) /\
  stdout call = [].
Proof.
  intros T noise call. subst call. unfold RandomWalk, np_normal. fold T.
  destruct (is_negative sigma);
    [rewrite bind_quietly_Raise; split; [discriminate|];
     split; [intros ts [=]|reflexivity]|].
  rewrite bind_quietly_Ok. fold noise.
  destruct (Nat.le_gt_cases 1 T) as [HT|HT].
  - destruct (RW_series_runs start_value noise T)
      as (x & Hrun & Hlen & Hfirst & Hrec);
      [apply length_normal_draws|exact HT|].
    rewrite Hrun, bind_quietly_Ok. simpl. split; [eauto|].
    split; [|reflexivity].
    intros ts [= <-]. simpl. repeat split; auto.
  - assert (HT0 : T = 0) by lia. rewrite HT0. simpl.
    split; [intros _ HT'; lia|]. split; [intros ts [=]|reflexivity].
Qed.

(** X2. A DriftRandomWalk call returns when [sigma] is not negative and
    there is a date; the series it returns starts at [start_value], every
    later value is [drift + x[t-1] + noise[t]], and the call prints
    nothing. *)
Theorem DriftRandomWalk_recursion (start_date end_date frequency : string)
    (start_value drift sigma : F) (rng : nat -> F) :
  let T := length (date_range start_date end_date frequency) in
  let noise := normal_draws zero sigma T rng in
  let call := DriftRandomWalk date_range start_date end_date frequency
                start_value drift sigma rng in
  (is_negative sigma = false -> 1 <= T -> exists ts, returned call = Ok ts) /\
  (forall ts, returned call = Ok ts ->
     ts_index ts = date_range start_date end_date frequency /\
     length (ts_data ts) = T /\
     ts_data ts !! 0 = Some start_value /\
     forall t, 1 <= t < T ->
       ts_data ts !! t
       = Some (drift ⊕ nth (t - 1) (ts_data ts) zero ⊕ nth t noise zero)) /\
  stdout call = [].
Proof.
  intros T noise call. subst call. unfold DriftRandomWalk, np_normal. fold T.
  destruct (is_negative sigma);
    [rewrite bind_quietly_Raise; split; [discriminate|];
     split; [intros ts [=]|reflexivity]|].
  rewrite bind_quietly_Ok. fold noise.
  destruct (Nat.le_gt_cases 1 T) as [HT|HT].
  - destruct (DRW_series_runs start_value drift noise T)
      as (x & Hrun & Hlen & Hfirst & Hrec);
      [apply length_normal_draws|exact HT|].
    rewrite Hrun, bind_quietly_Ok. simpl. split; [eauto|].
    split; [|reflexivity].
    intros ts [= <-]. simpl. repeat split; auto.
  - assert (HT0 : T = 0) by lia. rewrite HT0. simpl.
    split; [intros _ HT'; lia|]. split; [intros ts [=]|reflexivity].
Qed.

(** X3. On a date range that holds no date both walks fail: the series is
    empty and [x[0] = start_value] is out of range. *)
Theorem walks_need_a_date (start_date end_date frequency : string)
    (start_value drift sigma : F) (rng : nat -> F) :
  date_range start_date end_date frequency = [] ->
  is_negative sigma = false ->
  RandomWalk date_range start_date end_date frequency start_value sigma rng
  = raising IndexError /\
  DriftRandomWalk date_range start_date end_date frequency start_value drift
    sigma rng
  = raising IndexError.
Proof.
  intros Hdates Hsigma. unfold RandomWalk, DriftRandomWalk, np_normal.
  rewrite Hdates, Hsigma. simpl length. rewrite !bind_quietly_Ok.
  unfold RW_series, DRW_series. rewrite !walk_series_no_dates.
  split; reflexivity.
Qed.

Lemma quiet_noise `{!NumberLaws F} (T : nat) (rng : nat -> F) (i : nat) :
  nth i (normal_draws zero zero T rng) zero = zero.
Proof.
  destruct (Nat.lt_ge_cases i T) as [Hi|Hi].
  - erewrite nth_lookup_Some by (now apply lookup_normal_draws).
    now rewrite mul_zero_l, add_zero_r.
  - apply nth_overflow. now rewrite length_normal_draws.
Qed.

(** X4. With [sigma = 0] a random walk stays where it starts: every value
    of the returned series is [start_value]. *)
Theorem RandomWalk_without_noise `{!NumberLaws F}
    (start_date end_date frequency : string) (start_value : F)
    (rng : nat -> F) (ts : timeseries F) :
  returned (RandomWalk date_range start_date end_date frequency start_value
              zero rng) = Ok ts ->
  forall t, t < length (date_range start_date end_date frequency) ->
    ts_data ts !! t = Some start_value.
Proof.
  unfold RandomWalk, np_normal. rewrite is_negative_zero, bind_quietly_Ok.
  set (T := length _). set (noise := normal_draws zero zero T rng).
  destruct (Nat.le_gt_cases 1 T) as [HT|HT].
  - destruct (RW_series_runs start_value noise T)
      as (x & Hrun & Hlen & Hfirst & Hrec);
      [apply length_normal_draws|exact HT|].
    rewrite Hrun, bind_quietly_Ok. simpl. intros [= <-]. simpl.
    intros t. induction t as [|t IH]; intros Ht; [exact Hfirst|].
    rewrite Hrec by lia. f_equal.
    replace (S t - 1) with t by lia.
    rewrite (nth_lookup_Some _ _ _ _ (IH ltac:(lia))).
    unfold noise. now rewrite quiet_noise, add_zero_r.
  - intros _ t Ht. lia.
Qed.

(** X5. With [sigma = 0] a drifting walk is pure drift: value [t] of the
    returned series is [start_value] with [drift] added [t] times. *)
Theorem DriftRandomWalk_without_noise `{!NumberLaws F}
    (start_date end_date frequency : string) (start_value drift : F)
    (rng : nat -> F) (ts : timeseries F) :
  returned (DriftRandomWalk date_range start_date end_date frequency
              start_value drift zero rng) = Ok ts ->
  forall t, t < length (date_range start_date end_date frequency) ->
    ts_data ts !! t = Some (drifted start_value drift t).
Proof.
  unfold DriftRandomWalk, np_normal. rewrite is_negative_zero, bind_quietly_Ok.
  set (T := length _). set (noise := normal_draws zero zero T rng).
  destruct (Nat.le_gt_cases 1 T) as [HT|HT].
  - destruct (DRW_series_runs start_value drift noise T)
      as (x & Hrun & Hlen & Hfirst & Hrec);
      [apply length_normal_draws|exact HT|].
    rewrite Hrun, bind_quietly_Ok. simpl. intros [= <-]. simpl.
    intros t. induction t as [|t IH]; intros Ht; [exact Hfirst|].
    rewrite Hrec by lia. f_equal.
    replace (S t - 1) with t by lia.
    rewrite (nth_lookup_Some _ _ _ _ (IH ltac:(lia))).
    unfold noise. now rewrite quiet_noise, add_zero_r.
  - intros _ t Ht. lia.
Qed.

End WalkFacts.

(** ** More on the AR, MA and ARMA generators *)

Section GeneratorExtras.
Context {F : Type} `{Number F}.
Variable date_range : string -> string -> string -> list Timestamp.

(** What a returning AR call went through. *)
Lemma AutoRegressive_returned (start_date end_date frequency : string)
    (start_values : list F) (cst : F) (order : Z) (coeffs : list F)
    (sigma : F) (rng : nat -> F) (ts : timeseries F) :
  let P := length start_values in
  let T := length (date_range start_date end_date frequency) in
  let noise := normal_draws zero sigma T rng in
  returned (AutoRegressive date_range start_date end_date frequency
              start_values cst order coeffs sigma rng) = Ok ts ->
  length coeffs = P /\ P <= T /\
  AR_series start_values cst coeffs noise P T = Ok (ts_data ts).
Proof.
  intros P T noise. unfold AutoRegressive.
  destruct (Z.eqb_spec (Z.of_nat (length coeffs)) order) as [Hc|Hc];
    [rewrite assert_true|intros [=]].
  destruct (Z.eqb_spec (Z.of_nat (length start_values)) order) as [Hs|Hs];
    [rewrite assert_true|intros [=]].
  fold T P. unfold np_normal.
  destruct (is_negative sigma); [intros [=]|]. rewrite bind_quietly_Ok.
  fold noise.
  destruct (Nat.le_gt_cases P T) as [HPT|HPT];
    [|unfold P; rewrite AR_series_overrun by exact HPT; intros [=]].
  destruct (AR_series _ _ _ _ _ _) as [x|e]; [|intros [=]].
  rewrite bind_quietly_Ok.
  destruct (truediv _ _) as [E|e]; [|intros [=]].
  rewrite bind_quietly_Ok. simpl. intros [= <-]. simpl.
  split; [unfold P; lia|]. split; [exact HPT|reflexivity].
Qed.

(** What a returning MA call went through. *)
Lemma MovingAverage_returned (start_date end_date frequency : string)
    (cst : F) (order : Z) (coeffs : list F) (sigma : F) (rng : nat -> F)
    (ts : timeseries F) :
  let T := length (date_range start_date end_date frequency) in
  let noise := normal_draws zero sigma T rng in
  returned (MovingAverage date_range start_date end_date frequency
              cst order coeffs sigma rng) = Ok ts ->
  Z.of_nat (length coeffs) = order /\
  MA_series cst coeffs noise (length coeffs) T = Ok (ts_data ts).
Proof.
  intros T noise. unfold MovingAverage.
  destruct (Z.eqb_spec (Z.of_nat (length coeffs)) order) as [Hc|Hc];
    [rewrite assert_true|intros [=]].
  fold T. unfold np_normal.
  destruct (is_negative sigma); [intros [=]|]. rewrite bind_quietly_Ok.
  fold noise. rewrite <- Hc, Nat2Z.id.
  destruct (MA_series _ _ _ _ _) as [x|e]; [|intros [=]].
  rewrite bind_quietly_Ok.
  destruct (MA_variance_value _ _ _) as [V|e]; [|intros [=]].
  rewrite bind_quietly_Ok. simpl. intros [= <-]. simpl.
  split; reflexivity.
Qed.

(** What a returning ARMA call went through and gives. *)
Lemma ARMA_returned (start_date end_date frequency : string)
    (start_values : list F) (cst : F) (ARorder : Z) (ARcoeffs : list F)
    (MAorder : Z) (MAcoeffs : list F) (sigma : F) (rng : nat -> F)
    (ts : timeseries F) :
  let P := length ARcoeffs in
  let Q := length MAcoeffs in
  let T := length (date_range start_date end_date frequency) in
  let noise := normal_draws zero sigma T rng in
  returned (ARMA date_range start_date end_date frequency start_values cst
              ARorder ARcoeffs MAorder MAcoeffs sigma rng) = Ok ts ->
  length start_values = P /\ P <= T /\
  forall t, P <= t < T ->
    ts_data ts !! t
    = Some (ARMA_in_place cst ARcoeffs MAcoeffs noise P Q (ts_data ts) t).
Proof.
  intros P Q T noise. unfold ARMA.
  destruct (Z.eqb_spec (Z.of_nat (length ARcoeffs)) ARorder) as [HAR|HAR];
    [rewrite assert_true|intros [=]].
  destruct (Z.eqb_spec (Z.of_nat (length MAcoeffs)) MAorder) as [HMA|HMA];
    [rewrite assert_true|intros [=]].
  destruct (Z.eqb_spec (Z.of_nat (length start_values)) ARorder) as [Hs|Hs];
    [rewrite assert_true|intros [=]].
  fold T. unfold np_normal.
  destruct (is_negative sigma); [intros [=]|]. rewrite bind_quietly_Ok.
  fold noise. rewrite <- HAR, <- HMA, !Nat2Z.id. fold P Q.
  assert (HP : P = length start_values) by (unfold P; lia).
  destruct (Nat.le_gt_cases P T) as [HPT|HPT];
    [|rewrite HP, ARMA_series_overrun by lia; intros [=]].
  destruct (ARMA_series_runs start_values cst ARcoeffs MAcoeffs noise T)
    as (x & Hrun & _ & _ & Hrec); [lia|apply length_normal_draws|lia|].
  rewrite <- HP in Hrun, Hrec. fold Q in Hrun, Hrec.
  rewrite Hrun, bind_quietly_Ok. simpl. intros [= <-]. simpl.
  split; [lia|]. split; [exact HPT|exact Hrec].
Qed.

(** X6. A valid AR or ARMA call over fewer dates than start values fails:
    seeding [x[t_ini] = start_values[t_ini]] runs off the series, and the
    call raises [IndexError] having printed nothing. *)
Theorem series_shorter_than_seeds (start_date end_date frequency : string)
    (start_values : list F) (cst sigma : F) (rng : nat -> F) :
  is_negative sigma = false ->
  length (date_range start_date end_date frequency) < length start_values ->
  (forall order coeffs,
     Z.of_nat (length coeffs) = order ->
     Z.of_nat (length start_values) = order ->
     AutoRegressive date_range start_date end_date frequency start_values cst
       order coeffs sigma rng = raising IndexError) /\
  (forall ARorder ARcoeffs MAorder MAcoeffs,
     Z.of_nat (length ARcoeffs) = ARorder ->
     Z.of_nat (length MAcoeffs) = MAorder ->
     Z.of_nat (length start_values) = ARorder ->
     ARMA date_range start_date end_date frequency start_values cst ARorder
       ARcoeffs MAorder MAcoeffs sigma rng = raising IndexError).
Proof.
  intros Hsigma Hshort. split.
  - intros order coeffs Hc Hs. unfold AutoRegressive, np_normal.
    rewrite Hc, Hs, Z.eqb_refl, !assert_true, Hsigma, bind_quietly_Ok.
    now rewrite AR_series_overrun by exact Hshort.
  - intros ARorder ARcoeffs MAorder MAcoeffs HAR HMA Hs.
    unfold ARMA, np_normal.
    rewrite HAR, HMA, Hs, !Z.eqb_refl, !assert_true, Hsigma, bind_quietly_Ok.
    rewrite <- Hs, Nat2Z.id.
    now rewrite ARMA_series_overrun by exact Hshort.
Qed.

(** X7. An AR call prints at most one line, and only once the series is
    complete.  A call that returns has printed exactly the mean, the value
    the division [cst / (1 - sum(coeffs))] gave (inf or nan included, for
    NumPy scalars and a zero divisor).  And whenever a call has printed
    anything, the noise had been drawn, the series built and the division
    done before, and all it printed is that mean. *)
Theorem AutoRegressive_prints_mean (start_date end_date frequency : string)
    (start_values : list F) (cst : F) (order : Z) (coeffs : list F)
    (sigma : F) (rng : nat -> F) :
  let P := length start_values in
  let T := length (date_range start_date end_date frequency) in
  let noise := normal_draws zero sigma T rng in
  let call := AutoRegressive date_range start_date end_date frequency
                start_values cst order coeffs sigma rng in
  (forall ts, returned call = Ok ts ->
     exists E, truediv cst (one ⊖ py_sum coeffs) = Ok E /\
       stdout call = [AR_expected_value P E]) /\
  (stdout call <> [] ->
     exists x E,
       AR_series start_values cst coeffs noise P T = Ok x /\
       truediv cst (one ⊖ py_sum coeffs) = Ok E /\
       stdout call = [AR_expected_value P E]).
Proof.
  intros P T noise call. subst call. unfold AutoRegressive.
  destruct (Z.of_nat (length coeffs) =? order)%Z;
    [rewrite assert_true|split; [intros ts [=]|intros []; reflexivity]].
  destruct (Z.of_nat (length start_values) =? order)%Z;
    [rewrite assert_true|split; [intros ts [=]|intros []; reflexivity]].
  fold T P. unfold np_normal.
  destruct (is_negative sigma);
    [split; [intros ts [=]|intros []; reflexivity]|].
  rewrite bind_quietly_Ok. fold noise.
  destruct (AR_series _ _ _ _ _ _) as [x|e0];
    [rewrite bind_quietly_Ok|split; [intros ts [=]|intros []; reflexivity]].
  destruct (truediv _ _) as [E|e0];
    [rewrite bind_quietly_Ok|split; [intros ts [=]|intros []; reflexivity]].
  simpl. split; [intros ts _; eauto|intros _; eauto].
Qed.

Lemma MA_variance_loop (sq : F -> F) (coeffs : list F) :
  (forall c, In c coeffs -> pow c (of_int 2) = Ok (sq c)) ->
  forall k V, k <= length coeffs ->
    for_each (seq 0 k) (MA_variance_term coeffs) V
    = Ok (fold_left (fun V c => V ⊕ sq c) (take k coeffs) V).
Proof.
  intros Hsq. induction k as [|k IH]; intros V Hk; [reflexivity|].
  rewrite seq_S, for_each_app, IH by lia. simpl. unfold MA_variance_term.
  destruct (lookup_lt_is_Some_2 coeffs k ltac:(lia)) as (c & Hc).
  rewrite (getitem_lookup _ _ _ Hc). simpl.
  rewrite (Hsq c) by (apply list_elem_of_In, list_elem_of_lookup; eauto).
  simpl. rewrite (take_S_r _ _ _ Hc), fold_left_app. reflexivity.
Qed.

(** X8. A returning MA call has printed two lines: the expected value
    [cst] and, with its root, the variance
    [(1 + sum of coeffs[q]**2) * sigma**2]; a call that raises has printed
    nothing. *)
Theorem MovingAverage_prints_variance (sq : F -> F)
    (start_date end_date frequency : string) (cst : F) (order : Z)
    (coeffs : list F) (sigma : F) (rng : nat -> F) :
  let V := MA_variance_formula sq coeffs sigma in
  let call := MovingAverage date_range start_date end_date frequency
                cst order coeffs sigma rng in
  (forall c, In c (sigma :: coeffs) -> pow c (of_int 2) = Ok (sq c)) ->
  (forall ts, returned call = Ok ts ->
     stdout call = [MA_expected_value order cst; MA_variance order V (sqrt V)]) /\
  (forall e, returned call = Raise e -> stdout call = []).
Proof.
  intros V call Hsq. subst call. unfold MovingAverage.
  destruct (Z.eqb_spec (Z.of_nat (length coeffs)) order) as [Hc|Hc];
    [rewrite assert_true|split; [intros ts [=]|reflexivity]].
  destruct (np_normal _ _ _ _) as [a|e0];
    [rewrite bind_quietly_Ok|split; [intros ts [=]|reflexivity]].
  destruct (MA_series _ _ _ _ _) as [x|e0];
    [rewrite bind_quietly_Ok|split; [intros ts [=]|reflexivity]].
  rewrite <- Hc, Nat2Z.id. unfold MA_variance_value.
  rewrite range_from_zero,
    (MA_variance_loop sq coeffs (fun c Hin => Hsq c (or_intror Hin)))
    by reflexivity.
  simpl. rewrite (Hsq sigma) by (now left). simpl.
  rewrite firstn_all. split; [reflexivity|intros e [=]].
Qed.

Lemma MA_recursion_past (cst : F) (coeffs a1 a2 : list F) (Q t : nat) :
  (forall i, i <= t -> a1 !! i = a2 !! i) ->
  MA_recursion cst coeffs a1 Q t = MA_recursion cst coeffs a2 Q t.
Proof.
  intros Hpast. unfold MA_recursion, MA_sum.
  rewrite (nth_agree a1 a2 t) by (apply Hpast; lia).
  apply fold_left_ext_in. intros acc q _.
  destruct (Nat.leb_spec (q + 1) t); [|reflexivity].
  rewrite (nth_agree a1 a2) by (apply Hpast; lia). reflexivity.
Qed.

(** X9. A moving average never looks ahead: value [t] of an MA series is
    the same for two generators whose noise agrees up to index [t],
    whatever they draw later. *)
Theorem MovingAverage_no_look_ahead (start_date end_date frequency : string)
    (cst : F) (order : Z) (coeffs : list F) (sigma : F) (rng1 rng2 : nat -> F)
    (ts1 ts2 : timeseries F) (t : nat) :
  let T := length (date_range start_date end_date frequency) in
  returned (MovingAverage date_range start_date end_date frequency
              cst order coeffs sigma rng1) = Ok ts1 ->
  returned (MovingAverage date_range start_date end_date frequency
              cst order coeffs sigma rng2) = Ok ts2 ->
  t < T ->
  (forall i, i <= t ->
     normal_draws zero sigma T rng1 !! i = normal_draws zero sigma T rng2 !! i) ->
  ts_data ts1 !! t = ts_data ts2 !! t.
Proof.
  intros T Hts1 Hts2 Ht Hpast.
  apply MovingAverage_returned in Hts1 as (_ & Hrun1).
  apply MovingAverage_returned in Hts2 as (_ & Hrun2).
  fold T in Hrun1, Hrun2.
  destruct (MA_series_runs cst coeffs (normal_draws zero sigma T rng1)
              (length coeffs) T) as (x1 & Hx1 & _ & Hrec1);
    [reflexivity|apply length_normal_draws|].
  destruct (MA_series_runs cst coeffs (normal_draws zero sigma T rng2)
              (length coeffs) T) as (x2 & Hx2 & _ & Hrec2);
    [reflexivity|apply length_normal_draws|].
  rewrite Hrun1 in Hx1. rewrite Hrun2 in Hx2.
  injection Hx1 as <-. injection Hx2 as <-.
  rewrite Hrec1, Hrec2 by exact Ht. f_equal.
  now apply MA_recursion_past.
Qed.

Lemma nth_all_zero (l : list F) (p : nat) :
  Forall (eq zero) l -> nth p l zero = zero.
Proof.
  intros Hl. destruct (nth_lookup_or_length l p zero) as [Hp|Hp].
  - symmetry. apply (proj1 (List.Forall_forall _ _) Hl).
    apply list_elem_of_In, list_elem_of_lookup. eauto.
  - now apply nth_overflow.
Qed.

(** X10. With every AR and MA coefficient 0 an ARMA series is, past its
    start values, the constant plus the noise: [x[t] = cst + noise[t]]. *)
Theorem ARMA_without_coefficients `{!NumberLaws F}
    (start_date end_date frequency : string) (start_values : list F) (cst : F)
    (ARorder : Z) (ARcoeffs : list F) (MAorder : Z) (MAcoeffs : list F)
    (sigma : F) (rng : nat -> F) (ts : timeseries F) :
  let T := length (date_range start_date end_date frequency) in
  let noise := normal_draws zero sigma T rng in
  Forall (eq zero) ARcoeffs -> Forall (eq zero) MAcoeffs ->
  returned (ARMA date_range start_date end_date frequency start_values cst
              ARorder ARcoeffs MAorder MAcoeffs sigma rng) = Ok ts ->
  forall t, length start_values <= t < T ->
    ts_data ts !! t = Some (cst ⊕ nth t noise zero).
Proof.
  intros T noise HAR HMA Hts t Ht.
  apply ARMA_returned in Hts as (HP & _ & Hrec). fold T noise in Hrec.
  rewrite Hrec by lia. f_equal. unfold ARMA_in_place, MA_sum.
  assert (Hfold1 : forall (ps : list nat) (acc : F),
            fold_left (fun acc p =>
                         acc ⊕ nth p ARcoeffs zero ⊗
                           (if p =? 0 then cst ⊕ nth t noise zero
                            else nth (t - p) (ts_data ts) zero)) ps acc = acc).
  { induction ps as [|p ps IH]; intros acc; simpl; [reflexivity|].
    rewrite (nth_all_zero ARcoeffs) by assumption.
    now rewrite mul_zero_l, add_zero_r, IH. }
  rewrite Hfold1.
  generalize (cst ⊕ nth t noise zero). generalize (seq 0 (length MAcoeffs)).
  induction l as [|q qs IH]; intros acc; simpl; [reflexivity|].
  destruct (q + 1 <=? t); [|apply IH].
  rewrite (nth_all_zero MAcoeffs) by assumption.
  now rewrite mul_zero_l, sub_zero_r, IH.
Qed.

(** X11. Without an AR part ([P = 0], no start values) the ARMA recursion
    holds of the output as it is written, at every index:
    [x[t] = cst + noise[t] - sum over q < Q with t-q-1 >= 0 of
    MAcoeffs[q] * x[t-q-1]]: the feedback is on past values of the series
    itself, not on past noise. *)
Theorem ARMA_without_AR_part (start_date end_date frequency : string)
    (cst : F) (MAorder : Z) (MAcoeffs : list F) (sigma : F) (rng : nat -> F)
    (ts : timeseries F) :
  let T := length (date_range start_date end_date frequency) in
  let noise := normal_draws zero sigma T rng in
  returned (ARMA date_range start_date end_date frequency [] cst 0 []
              MAorder MAcoeffs sigma rng) = Ok ts ->
  forall t, t < T ->
    ts_data ts !! t
    = Some (ARMA_literal cst [] MAcoeffs noise 0 (length MAcoeffs)
              (ts_data ts) t).
Proof.
  intros T noise Hts t Ht.
  apply ARMA_returned in Hts as (_ & _ & Hrec). fold T noise in Hrec.
  rewrite Hrec by (simpl; lia). reflexivity.
Qed.

End GeneratorExtras.

(** ** More on the market *)

Section MarketExtras.
Context {F : Type} `{Number F}.
Variable strptime : string -> option Z.



Lemma fold_left_seq_shift {A} (f : A -> nat -> A) (n a : nat) (v : A) :
  fold_left (fun c k => f c (S k)) (seq a n) v = fold_left f (seq (S a) n) v.
Proof.
  revert a v. induction n as [|n IH]; intros a v; simpl; [reflexivity|].
  apply IH.
Qed.

(** Entry [j] of row [i] of the running product, when entry [j] of the
    rows is [r 0], [r 1], ... *)
Lemma cumprod_from_entry (j : nat) (rows : list (list F)) :
  forall (r : nat -> F) (prev : list F) (p : F) (i : nat),
    prev !! j = Some p ->
    (forall k, k <= i ->
       exists row, rows !! k = Some row /\ row !! j = Some (r k)) ->
    exists row, cumprod_from prev rows !! i = Some row /\
      row !! j = Some (fold_left (fun c k => c ⊗ r k) (seq 0 (S i)) p).
Proof.
  induction rows as [|r0 rows IH]; intros r prev p i Hp Hrows.
  - destruct (Hrows 0 ltac:(lia)) as (row & Hrow & _). discriminate.
  - simpl.
    assert (Hc : zip_with mul prev r0 !! j = Some (p ⊗ r 0)).
    { destruct (Hrows 0 ltac:(lia)) as (row & [= <-] & Hrj).
      rewrite lookup_zip_with, Hp. simpl. now rewrite Hrj. }
    destruct i as [|i].
    + exists (zip_with mul prev r0). split; [reflexivity|exact Hc].
    + destruct (IH (fun k => r (S k)) (zip_with mul prev r0) (p ⊗ r 0) i Hc)
        as (row & Hrow & Hrj).
      { intros k Hk. destruct (Hrows (S k) ltac:(lia)) as (row & Hrow & Hrj).
        exists row. split; assumption. }
      exists row. split; [exact Hrow|]. rewrite Hrj. f_equal.
      rewrite (fold_left_seq_shift (fun c k => c ⊗ r k)). reflexivity.
Qed.

Lemma normal_matrix_draws_entry (loc scale : F) (rows cols : nat)
    (rng : nat -> F) (i j : nat) :
  i < rows -> j < cols ->
  exists row, normal_matrix_draws loc scale rows cols rng !! i = Some row /\
    row !! j = Some (market_return loc scale cols rng i j).
Proof.
  intros Hi Hj. unfold normal_matrix_draws. eexists. split.
  - rewrite lookup_map, lookup_seq_lt by exact Hi. reflexivity.
  - rewrite lookup_map, lookup_seq_lt by exact Hj. reflexivity.
Qed.

(** Every price of a returned panel, entry by entry. *)
Lemma create_market_entry (r_ini drift sigma n_years steps_per_year : F)
    (n_scenarios : Z) (rng : nat -> F) (panel : DataFrame F) :
  let dt := div one steps_per_year in
  let n_steps := Z.to_nat (trunc (n_years ⊗ steps_per_year) + 1) in
  let cols := Z.to_nat n_scenarios in
  create_market r_ini drift sigma n_years steps_per_year n_scenarios rng
  = Ok panel ->
  exists loc, pow (one ⊕ drift) dt = Ok loc /\
    forall i j, i < n_steps -> j < cols ->
      exists row, values panel !! i = Some row /\
        row !! j
        = Some (price_path r_ini loc (sigma ⊗ sqrt dt) cols rng j i).
Proof.
  intros dt n_steps cols. unfold create_market, builtin_truediv.
  destruct (is_zero steps_per_year); [discriminate|]. simpl. fold dt.
  destruct (pow (one ⊕ drift) dt) as [loc|e]; [|discriminate]. simpl.
  unfold np_normal_matrix.
  destruct (is_negative (sigma ⊗ sqrt dt)); [discriminate|].
  destruct (_ || _)%bool; [discriminate|]. simpl. fold n_steps cols.
  set (scale := sigma ⊗ sqrt dt).
  destruct (Nat.eq_dec n_steps 0) as [Hzero|Hpos].
  - rewrite Hzero. simpl. discriminate.
  - assert (Hlen : length (normal_matrix_draws loc scale n_steps cols rng)
                   = n_steps) by apply length_normal_matrix_draws.
    rewrite (setitem_insert _ 0) by lia. simpl.
    destruct (normal_matrix_draws loc scale n_steps cols rng)
      as [|r0 rest] eqn:Hdraws; [simpl in Hlen; lia|].
    simpl. intros [= <-]. exists loc. split; [reflexivity|].
    intros i j Hi Hj. simpl. unfold price_path.
    destruct i as [|i].
    + eexists. split; [reflexivity|].
      rewrite lookup_map, lookup_replicate_2 by exact Hj. reflexivity.
    + destruct (cumprod_from_entry j rest
                  (fun k => market_return loc scale cols rng (S k) j)
                  (replicate cols one) one i) as (row & Hrow & Hrj).
      { now apply lookup_replicate_2. }
      { intros k Hk.
        destruct (normal_matrix_draws_entry loc scale n_steps cols rng
                    (S k) j) as (row & Hrow & Hrj); [lia|exact Hj|].
        rewrite Hdraws in Hrow. exists row. split; assumption. }
      exists (map (mul r_ini) row). split.
      * change ((map (map (mul r_ini)) (cumprod_from (replicate cols one) rest))
                !! i = Some (map (mul r_ini) row)).
        rewrite lookup_map, Hrow. reflexivity.
      * rewrite lookup_map, Hrj. simpl. do 2 f_equal.
        apply (fold_left_seq_shift
                 (fun c k => c ⊗ market_return loc scale cols rng k j)).
Qed.

(** X14. Every price of a returned panel is the initial price times the
    running product of the returns drawn for its own scenario at ticks
    [1..i]: price [(i, j)] is
    [r_ini * (1 * ret(1,j) * ... * ret(i,j))]. *)
Theorem create_market_price_paths
    (r_ini drift sigma n_years steps_per_year : F) (n_scenarios : Z)
    (rng : nat -> F) (panel : DataFrame F) :
  let dt := div one steps_per_year in
  let cols := Z.to_nat n_scenarios in
  create_market r_ini drift sigma n_years steps_per_year n_scenarios rng
  = Ok panel ->
  exists loc, pow (one ⊕ drift) dt = Ok loc /\
    forall i j, i < length (values panel) -> j < cols ->
      nth j (nth i (values panel) []) zero
      = price_path r_ini loc (sigma ⊗ sqrt dt) cols rng j i.
Proof.
  intros dt cols Hpanel.
  destruct (create_market_entry _ _ _ _ _ _ _ _ Hpanel) as (loc & Hloc & Hentry).
  destruct (create_market_cases r_ini drift sigma n_years steps_per_year
              n_scenarios rng) as (_ & Hshape).
  destruct (Hshape panel Hpanel) as (_ & _ & Hrows & _).
  exists loc. split; [exact Hloc|]. intros i j Hi Hj.
  destruct (Hentry i j) as (row & Hrow & Hrj); [lia|exact Hj|].
  rewrite (nth_lookup_Some _ _ _ _ Hrow).
  now apply nth_lookup_Some.
Qed.

Lemma price_path_own_draws (r_ini loc scale : F) (cols : nat)
    (rng1 rng2 : nat -> F) (j i : nat) :
  (forall k, 1 <= k <= i -> rng1 (k * cols + j) = rng2 (k * cols + j)) ->
  price_path r_ini loc scale cols rng1 j i
  = price_path r_ini loc scale cols rng2 j i.
Proof.
  intros Hown. unfold price_path, market_return. f_equal.
  apply fold_left_ext_in. intros c k Hk. apply in_seq in Hk.
  rewrite Hown by lia. reflexivity.
Qed.

(** X15. The scenarios of a market do not touch each other: two markets
    simulated with the same parameters from generators that agree on the
    draws of scenario [j] after tick 0 have the same column [j], whatever
    the other draws (those of row 0 included). *)
Theorem create_market_scenarios_independent
    (r_ini drift sigma n_years steps_per_year : F) (n_scenarios : Z)
    (rng1 rng2 : nat -> F) (panel1 panel2 : DataFrame F) (j : nat) :
  let cols := Z.to_nat n_scenarios in
  create_market r_ini drift sigma n_years steps_per_year n_scenarios rng1
  = Ok panel1 ->
  create_market r_ini drift sigma n_years steps_per_year n_scenarios rng2
  = Ok panel2 ->
  j < cols ->
  (forall k, 1 <= k -> rng1 (k * cols + j) = rng2 (k * cols + j)) ->
  forall i, i < length (values panel1) ->
    nth j (nth i (values panel1) []) zero
    = nth j (nth i (values panel2) []) zero.
Proof.
  intros cols Hpanel1 Hpanel2 Hj Hown i Hi.
  destruct (create_market_entry _ _ _ _ _ _ _ _ Hpanel1)
    as (loc1 & Hloc1 & Hentry1).
  destruct (create_market_entry _ _ _ _ _ _ _ _ Hpanel2)
    as (loc2 & Hloc2 & Hentry2).
  rewrite Hloc1 in Hloc2. injection Hloc2 as <-.
  destruct (create_market_cases r_ini drift sigma n_years steps_per_year
              n_scenarios rng1) as (_ & Hshape).
  destruct (Hshape panel1 Hpanel1) as (_ & _ & Hrows & _).
  destruct (Hentry1 i j) as (row1 & Hrow1 & Hrj1); [lia|exact Hj|].
  destruct (Hentry2 i j) as (row2 & Hrow2 & Hrj2); [lia|exact Hj|].
  rewrite (nth_lookup_Some _ _ _ _ Hrow1), (nth_lookup_Some _ _ _ _ Hrow2).
  rewrite (nth_lookup_Some _ _ _ _ Hrj1), (nth_lookup_Some _ _ _ _ Hrj2).
  apply price_path_own_draws. intros k Hk. apply Hown. lia.
Qed.

End MarketExtras.

(** ** More on labels and shares *)

Section LabelExtras.
Context {F : Type} `{Number F}.
Variable strptime : string -> option Z.

(** Whatever else happens, the columns are renamed and the values kept. *)
Lemma set_market_names_frame (data : DataFrame F)
    (date date_type interval_type : string) :
  let data' := fst (set_market_names strptime data date date_type
                      interval_type) in
  columns data' = asset_names (length (columns data)) /\
  values data' = values data.
Proof.
  unfold set_market_names.
  destruct (date_series_of _ _ _ _) as [[ds|]|e]; simpl; split; reflexivity.
Qed.

(** A call with a date that parses, a known mode and a known interval. *)
Lemma set_market_names_known (data : DataFrame F)
    (date date_type interval_type : string) (d : Z) :
  let N := length (values data) in
  strptime date = Some d ->
  date_type = "start"%string \/ date_type = "end"%string ->
  known_interval interval_type ->
  exists first,
    set_market_names strptime data date date_type interval_type
    = ({| columns := asset_names (length (columns data));
          index := map (PeriodLabel interval_type)
                     (map (fun i => first + i * tick_step date_type interval_type)%Z
                        (map Z.of_nat (seq 0 N)));
          values := values data |}, Ok tt) /\
    (date_type = "start"%string -> first = d) /\
    (date_type = "end"%string ->
     first = (d - (end_gap interval_type (Z.of_nat N)
                   + (Z.of_nat N - 1) * tick_step "end" interval_type))%Z).
Proof.
  intros N Hdate Htype Hint. unfold set_market_names, date_series_of.
  destruct Htype as [-> | ->]; destruct Hint as [-> | [-> | ->]]; simpl;
    rewrite Hdate; simpl;
    eexists; (split; [reflexivity|]);
    (split; [intros Hstart; first [reflexivity | discriminate Hstart]|]);
    intros Hend;
    first [discriminate Hend | unfold end_gap, tick_step, N; simpl; lia].
Qed.

(** X16. With a date that parses, mode ["start"] or ["end"] and interval
    ["D"], ["M"] or ["Y"], the labelling succeeds: the columns become
    [Asset 0], [Asset 1], ..., the values stay, and there is one period per
    row, the ticks a fixed number of days apart (1, 12 or 365 from the
    start; 1, 30 or 365 towards the end); in mode ["start"] the first tick
    is the date itself. *)
Theorem set_market_names_labels (data : DataFrame F)
    (date date_type interval_type : string) (d : Z) :
  strptime date = Some d ->
  date_type = "start"%string \/ date_type = "end"%string ->
  known_interval interval_type ->
  let (data', ended) := set_market_names strptime data date date_type
                          interval_type in
  ended = Ok tt /\
  columns data' = asset_names (length (columns data)) /\
  values data' = values data /\
  length (index data') = length (values data) /\
  exists first,
    (date_type = "start"%string -> first = d) /\
    forall i, i < length (values data) ->
      index data' !! i
      = Some (PeriodLabel interval_type
                (first + Z.of_nat i * tick_step date_type interval_type)).
Proof.
  intros Hdate Htype Hint.
  destruct (set_market_names_known data date date_type interval_type d
              Hdate Htype Hint) as (first & -> & Hstart & _).
  split; [reflexivity|]. split; [reflexivity|]. split; [reflexivity|]. simpl.
  split; [now rewrite !length_map, length_seq|].
  exists first. split; [exact Hstart|]. intros i Hi.
  now rewrite !lookup_map, lookup_seq_lt.
Qed.

Lemma monthly_gap (N : Z) :
  ((N * 365) / 12 - 30 * (N - 1) = 30 + (5 * N) / 12)%Z.
Proof.
  replace (N * 365)%Z with (5 * N + (30 * N) * 12)%Z by lia.
  rewrite Z.div_add by lia. lia.
Qed.

Lemma end_gap_spec (interval_type : string) (N : Z) :
  known_interval interval_type ->
  (1 <= N)%Z ->
  (1 <= end_gap interval_type N)%Z /\
  (interval_type = "D"%string -> end_gap interval_type N = 1%Z) /\
  (interval_type = "M"%string ->
   end_gap interval_type N = (30 + (5 * N) / 12)%Z) /\
  (interval_type = "Y"%string -> end_gap interval_type N = 365%Z).
Proof.
  intros [-> | [-> | ->]] HN; unfold end_gap;
    repeat match goal with
           | |- context [String.eqb ?a ?b] =>
               let v := eval vm_compute in (String.eqb a b) in
               change (String.eqb a b) with v
           end; cbv iota;
    repeat split; intros; try discriminate; try reflexivity; try lia.
  - rewrite monthly_gap. pose proof (Z.div_pos (5 * N) 12). lia.
  - apply monthly_gap.
Qed.

(** X17. In mode ["end"] the axis never reaches the date: the last tick is
    1 day before it for ["D"], 365 days for ["Y"], and for ["M"]
    [30 + floor(5*N/12)] days, [N] the number of ticks: a monthly axis
    falls 5 more days short for every 12 ticks it has. *)
Theorem set_market_names_end_gap (data : DataFrame F)
    (date interval_type : string) (d : Z) :
  let N := Z.of_nat (length (values data)) in
  strptime date = Some d ->
  known_interval interval_type ->
  (1 <= N)%Z ->
  let data' := fst (set_market_names strptime data date "end" interval_type) in
  last (index data')
  = Some (PeriodLabel interval_type (d - end_gap interval_type N)) /\
  (1 <= end_gap interval_type N)%Z /\
  (interval_type = "M"%string ->
   end_gap interval_type N = (30 + (5 * N) / 12)%Z).
Proof.
  intros N Hdate Hint HN.
  destruct (set_market_names_known data date "end" interval_type d
              Hdate (or_intror eq_refl) Hint) as (first & -> & _ & Hfirst).
  specialize (Hfirst eq_refl). fold N in Hfirst. simpl.
  destruct (end_gap_spec interval_type N Hint HN) as (Hpos & _ & Hmonth & _).
  split; [|split; [exact Hpos|exact Hmonth]].
  rewrite last_lookup, !length_map, length_seq, !lookup_map.
  rewrite lookup_seq_lt by lia. simpl. do 2 f_equal.
  replace (Z.of_nat (Init.Nat.pred (length (values data)))) with (N - 1)%Z
    by (unfold N; lia).
  rewrite Hfirst. lia.
Qed.

(** X18. With mode ["start"] or ["end"] and an interval type other than
    ["D"], ["M"], ["Y"], no branch assigns [date_series]: the call renames
    the columns and then fails with [UnboundLocalError], whether the date
    parses or not. *)
Theorem set_market_names_unknown_interval (data : DataFrame F)
    (date date_type interval_type : string) :
  date_type = "start"%string \/ date_type = "end"%string ->
  ~ known_interval interval_type ->
  let (data', ended) := set_market_names strptime data date date_type
                          interval_type in
  ended = Raise (UnboundLocalError "date_series") /\
  columns data' = asset_names (length (columns data)) /\
  index data' = index data.
Proof.
  intros Htype Hint. unfold known_interval in Hint.
  unfold set_market_names, date_series_of.
  destruct (String.eqb_spec interval_type "D"); [tauto|].
  destruct (String.eqb_spec interval_type "M"); [tauto|].
  destruct (String.eqb_spec interval_type "Y"); [tauto|].
  destruct Htype as [-> | ->]; simpl; repeat split; reflexivity.
Qed.

(** X19. A date that does not parse is not reported as such: the
    [ValueError] built in the [except] branch is never raised.  In mode
    ["end"] the call renames the columns and then fails with a [TypeError],
    subtracting a [timedelta] from the date string. *)
Theorem set_market_names_unparsed_date (data : DataFrame F)
    (date interval_type : string) :
  strptime date = None ->
  known_interval interval_type ->
  let (data', ended) := set_market_names strptime data date "end"
                          interval_type in
  ended = Raise TypeError /\
  ended <> Raise (ValueError "Current date format does not seem right.") /\
  columns data' = asset_names (length (columns data)) /\
  index data' = index data.
Proof.
  intros Hdate Hint. unfold set_market_names, date_series_of.
  rewrite Hdate.
  destruct Hint as [-> | [-> | ->]]; simpl;
    (split; [reflexivity|]); (split; [discriminate|]); split; reflexivity.
Qed.

Lemma comprehension_length {A} (l : list nat) (f : nat -> result A)
    (vs : list A) :
  comprehension l f = Ok vs -> length vs = length l.
Proof.
  revert vs. induction l as [|k l IH]; intros vs; simpl.
  - intros [= <-]. reflexivity.
  - destruct (f k) as [v|e]; simpl; [|discriminate].
    destruct (comprehension l f) as [vs'|e]; simpl; [|discriminate].
    intros [= <-]. simpl. f_equal. now apply IH.
Qed.

(** X20. A share-count call returns, with the truncated draw of every asset
    under the market's column labels, as soon as no truncated draw is
    below 0 (draws between -1 and 0 pass, as 0); and for a market without
    columns it returns the empty table, whatever the mean and the
    deviation. *)
Theorem create_market_shares_returns (market : DataFrame F) (mean stdv : F)
    (rng : nat -> F) :
  let draw (k : nat) := mean ⊕ stdv ⊗ rng k in
  let call := create_market_shares market mean stdv rng in
  (is_negative stdv = false ->
   (forall k, k < length (columns market) -> (0 <= trunc (draw k))%Z) ->
   call = Ok {| s_index := columns market;
                s_values := map (fun k => trunc (draw k))
                              (seq 0 (length (columns market))) |}) /\
  (columns market = [] -> call = Ok {| s_index := []; s_values := [] |}).
Proof.
  intros draw call. subst call. unfold create_market_shares.
  rewrite range_from_zero. split.
  - intros Hscale Hdraws.
    rewrite (comprehension_map _ _ (fun k => trunc (draw k)))
      by (intros k _; now apply draw_share_truncates).
    simpl.
    set (counts := map _ (seq 0 (length (columns market)))).
    destruct (series_min counts) as [m|] eqn:Hmin; [|reflexivity].
    destruct (series_min_spec counts m Hmin) as (Hin & _).
    apply in_map_iff in Hin as (k & <- & Hk). apply in_seq in Hk.
    destruct (Z.ltb_spec (trunc (draw k)) 0) as [Hneg|Hpos]; [|reflexivity].
    specialize (Hdraws k ltac:(lia)). lia.
  - intros ->. reflexivity.
Qed.

(** X21. Simulation, labelling and share counts compose: the shares drawn
    for a simulated and labelled market are one per scenario, listed under
    [Asset 0], [Asset 1], ..., and the labelled market still holds the
    simulated prices, one period per simulated step. *)
Theorem market_pipeline (r_ini drift sigma n_years steps_per_year : F)
    (n_scenarios : Z) (rng rng' : nat -> F)
    (date date_type interval_type : string) (mean stdv : F)
    (panel panel' : DataFrame F) (shares : Series) :
  create_market r_ini drift sigma n_years steps_per_year n_scenarios rng
  = Ok panel ->
  set_market_names strptime panel date date_type interval_type
  = (panel', Ok tt) ->
  create_market_shares panel' mean stdv rng' = Ok shares ->
  s_index shares = asset_names (Z.to_nat n_scenarios) /\
  length (s_values shares) = Z.to_nat n_scenarios /\
  values panel' = values panel /\
  length (index panel')
  = Z.to_nat (trunc (n_years ⊗ steps_per_year) + 1).
Proof.
  intros Hpanel Hnames Hshares.
  destruct (create_market_cases r_ini drift sigma n_years steps_per_year
              n_scenarios rng) as (_ & Hshape).
  destruct (Hshape panel Hpanel) as (_ & _ & Hrows & _ & Hcols & _).
  pose proof (set_market_names_frame panel date date_type interval_type)
    as Hframe.
  rewrite Hnames in Hframe. simpl in Hframe. destruct Hframe as (Hc' & Hv').
  rewrite Hcols in Hc'.
  assert (Hindex : length (index panel') = length (values panel)).
  { unfold set_market_names in Hnames.
    destruct (date_series_of _ _ _ _) as [[ds|]|e] eqn:Hds;
      [|discriminate|discriminate].
    injection Hnames as <-. simpl. rewrite length_map.
    unfold date_series_of in Hds.
    repeat match type of Hds with
           | (if ?b then _ else _) = _ => destruct b
           | match ?x with _ => _ end = _ => destruct x
           end;
      try discriminate; injection Hds as <-;
      now rewrite !length_map, length_seq. }
  unfold create_market_shares in Hshares.
  destruct (comprehension _ _) as [counts|e] eqn:Hcounts; [|discriminate].
  simpl in Hshares.
  apply comprehension_length in Hcounts.
  rewrite range_from_zero, length_seq in Hcounts.
  destruct (match series_min counts with Some m => _ | None => _ end);
    [discriminate|].
  injection Hshares as <-. simpl.
  split; [exact Hc'|]. split.
  { rewrite Hcounts, Hc'. unfold asset_names.
    now rewrite length_map, length_seq. }
  split; [exact Hv'|]. now rewrite Hindex, Hrows.
Qed.

End LabelExtras.

(** ** A longer horizon extends the series *)

Section Horizon.
Context {F : Type} `{Number F}.
Variable date_range : string -> string -> string -> list Timestamp.

Lemma AR_recursion_agree (cst : F) (coeffs a1 a2 : list F) (P : nat)
    (x y : list F) (t : nat) :
  P <= t -> nth t a1 zero = nth t a2 zero ->
  (forall i, i < t -> x !! i = y !! i) ->
  AR_recursion cst coeffs a1 P x t = AR_recursion cst coeffs a2 P y t.
Proof.
  intros Ht Ha Hxy. rewrite (AR_recursion_local cst coeffs a1 P x y t Ht Hxy).
  unfold AR_recursion. now rewrite Ha.
Qed.

Lemma normal_draws_prefix (loc scale : F) (T1 T2 : nat) (rng : nat -> F)
    (t : nat) :
  t < T1 -> T1 <= T2 ->
  nth t (normal_draws loc scale T1 rng) zero
  = nth t (normal_draws loc scale T2 rng) zero.
Proof.
  intros Ht HT.
  rewrite (nth_lookup_Some _ _ _ _ (lookup_normal_draws loc scale T1 rng t Ht)).
  symmetry. apply nth_lookup_Some. apply lookup_normal_draws. lia.
Qed.

(** X22. Asking an AR series over a longer date range, with the same
    parameters and the same generator, only adds values at the end: the
    series over the shorter range is the start of the series over the
    longer one. *)
Theorem AutoRegressive_extends (start_date end1 end2 frequency : string)
    (start_values : list F) (cst : F) (order : Z) (coeffs : list F)
    (sigma : F) (rng : nat -> F) (ts1 ts2 : timeseries F) :
  let T1 := length (date_range start_date end1 frequency) in
  let T2 := length (date_range start_date end2 frequency) in
  T1 <= T2 ->
  returned (AutoRegressive date_range start_date end1 frequency start_values
              cst order coeffs sigma rng) = Ok ts1 ->
  returned (AutoRegressive date_range start_date end2 frequency start_values
              cst order coeffs sigma rng) = Ok ts2 ->
  take T1 (ts_data ts2) = ts_data ts1.
Proof.
  intros T1 T2 HT Hts1 Hts2.
  apply AutoRegressive_returned in Hts1 as (Hc & HP1 & Hrun1).
  apply AutoRegressive_returned in Hts2 as (_ & HP2 & Hrun2).
  fold T1 in HP1, Hrun1. fold T2 in HP2, Hrun2.
  set (P := length start_values) in *.
  destruct (AR_series_runs start_values cst coeffs
              (normal_draws zero sigma T1 rng) T1)
    as (x1 & Hx1 & Hlen1 & Hseed1 & Hrec1);
    [exact Hc|apply length_normal_draws|exact HP1|].
  destruct (AR_series_runs start_values cst coeffs
              (normal_draws zero sigma T2 rng) T2)
    as (x2 & Hx2 & Hlen2 & Hseed2 & Hrec2);
    [exact Hc|apply length_normal_draws|exact HP2|].
  fold P in Hx1, Hx2, Hseed1, Hseed2, Hrec1, Hrec2.
  rewrite Hrun1 in Hx1. rewrite Hrun2 in Hx2.
  injection Hx1 as <-. injection Hx2 as <-.
  assert (Hsame : forall t, t < T1 -> ts_data ts2 !! t = ts_data ts1 !! t).
  { intros t. induction t as [t IH] using lt_wf_ind. intros Ht.
    destruct (Nat.lt_ge_cases t P) as [Hseed|Hlater].
    - now rewrite Hseed1, Hseed2.
    - rewrite Hrec1, Hrec2 by lia. f_equal.
      apply AR_recursion_agree; [exact Hlater| |].
      + symmetry. now apply normal_draws_prefix.
      + intros i Hi. apply IH; lia. }
  apply list_eq. intros t.
  destruct (Nat.lt_ge_cases t T1) as [Ht|Ht].
  - rewrite lookup_take_lt by exact Ht. now apply Hsame.
  - rewrite lookup_take_ge by exact Ht. symmetry.
    apply lookup_ge_None. lia.
Qed.

End Horizon.

(** ** The further properties on sample inputs *)

Lemma walks_need_a_date_witness :
  no_dates "2020-01-05" "2020-01-01" "D" = [] /\
  RandomWalk no_dates "2020-01-05" "2020-01-01" "D" (frac 5 1) (frac 1 1) quiet
  = raising IndexError.
Proof.
  split; [reflexivity|].
  apply (walks_need_a_date no_dates "2020-01-05" "2020-01-01" "D"
           (frac 5 1) (frac 0 1) (frac 1 1) quiet); reflexivity.
Defined.

Lemma RandomWalk_without_noise_witness :
  exists ts,
    returned (RandomWalk three_dates "2020-01-01" "2020-01-03" "D"
                (frac 5 1) zero loud_then_quiet) = Ok ts /\
    ts_data ts !! 2 = Some (frac 5 1).
Proof.
  eexists. split; [vm_compute; reflexivity|].
  apply (RandomWalk_without_noise three_dates "2020-01-01" "2020-01-03" "D"
           (frac 5 1) loud_then_quiet); [vm_compute; reflexivity|simpl; lia].
Defined.

Lemma DriftRandomWalk_without_noise_witness :
  exists ts,
    returned (DriftRandomWalk three_dates "2020-01-01" "2020-01-03" "D"
                (frac 5 1) (frac 1 2) zero loud_then_quiet) = Ok ts /\
    ts_data ts !! 2 = Some (drifted (frac 5 1) (frac 1 2) 2).
Proof.
  eexists. split; [vm_compute; reflexivity|].
  apply (DriftRandomWalk_without_noise three_dates "2020-01-01" "2020-01-03"
           "D" (frac 5 1) (frac 1 2) loud_then_quiet);
    [vm_compute; reflexivity|simpl; lia].
Defined.

Lemma series_shorter_than_seeds_witness :
  length (three_dates "2020-01-01" "2020-01-03" "D")
  < length [frac 1 1; frac 2 1; frac 3 1; frac 4 1] /\
  AutoRegressive three_dates "2020-01-01" "2020-01-03" "D"
    [frac 1 1; frac 2 1; frac 3 1; frac 4 1] (frac 1 1) 4
    [frac 1 2; frac 0 1; frac 0 1; frac 0 1] (frac 1 1) quiet
  = raising IndexError.
Proof.
  split; [simpl; lia|].
  destruct (series_shorter_than_seeds three_dates "2020-01-01" "2020-01-03"
              "D" [frac 1 1; frac 2 1; frac 3 1; frac 4 1] (frac 1 1)
              (frac 1 1) quiet) as [HAR _]; [reflexivity|simpl; lia|].
  apply HAR; reflexivity.
Defined.

Lemma MovingAverage_prints_variance_witness :
  exists ts,
    returned (MovingAverage three_dates "2020-01-01" "2020-01-03" "D"
                (frac 3 1) 2 [frac 1 2; frac 1 4] (frac 2 1) quiet) = Ok ts /\
    stdout (MovingAverage three_dates "2020-01-01" "2020-01-03" "D"
              (frac 3 1) 2 [frac 1 2; frac 1 4] (frac 2 1) quiet)
    = [MA_expected_value 2 (frac 3 1);
       MA_variance 2
         (MA_variance_formula (fun c => c * c)%Qc [frac 1 2; frac 1 4]
            (frac 2 1))
         (sqrt (MA_variance_formula (fun c => c * c)%Qc [frac 1 2; frac 1 4]
                  (frac 2 1)))].
Proof.
  eexists. split; [vm_compute; reflexivity|].
  refine (proj1 (MovingAverage_prints_variance three_dates
                   (fun c => c * c)%Qc "2020-01-01" "2020-01-03" "D"
                   (frac 3 1) 2 [frac 1 2; frac 1 4] (frac 2 1) quiet _) _ _).
  - intros c [<- | [<- | [<- | []]]]; vm_compute; f_equal;
      apply Qc_is_canon; reflexivity.
  - vm_compute. reflexivity.
Defined.

Lemma MovingAverage_no_look_ahead_witness :
  exists ts1 ts2,
    returned (MovingAverage three_dates "2020-01-01" "2020-01-03" "D"
                (frac 3 1) 1 [frac 1 2] (frac 1 1) quiet) = Ok ts1 /\
    returned (MovingAverage three_dates "2020-01-01" "2020-01-03" "D"
                (frac 3 1) 1 [frac 1 2] (frac 1 1) quiet_then_loud) = Ok ts2 /\
    ts_data ts1 !! 1 = ts_data ts2 !! 1.
Proof.
  eexists. eexists. split; [vm_compute; reflexivity|].
  split; [vm_compute; reflexivity|].
  apply (MovingAverage_no_look_ahead three_dates "2020-01-01" "2020-01-03" "D"
           (frac 3 1) 1 [frac 1 2] (frac 1 1) quiet quiet_then_loud);
    [vm_compute; reflexivity|vm_compute; reflexivity|simpl; lia|].
  intros [|[|i]] Hi; try lia; reflexivity.
Defined.

Lemma ARMA_without_coefficients_witness :
  exists ts,
    returned (ARMA three_dates "2020-01-01" "2020-01-03" "D"
                [frac 5 1] (frac 3 1) 1 [zero] 1 [zero] (frac 1 1)
                quiet_then_loud) = Ok ts /\
    ts_data ts !! 2
    = Some (frac 3 1 ⊕ nth 2 (normal_draws zero (frac 1 1) 3 quiet_then_loud)
                          zero)%num.
Proof.
  eexists. split; [vm_compute; reflexivity|].
  apply (ARMA_without_coefficients three_dates "2020-01-01" "2020-01-03" "D"
           [frac 5 1] (frac 3 1) 1 [zero] 1 [zero] (frac 1 1) quiet_then_loud);
    [repeat constructor|repeat constructor|vm_compute; reflexivity
    |simpl; lia].
Defined.

Lemma ARMA_without_AR_part_witness :
  exists ts,
    returned (ARMA three_dates "2020-01-01" "2020-01-03" "D"
                [] (frac 3 1) 0 [] 1 [frac 1 2] (frac 1 1) quiet_then_loud)
    = Ok ts /\
    ts_data ts !! 2
    = Some (ARMA_literal (frac 3 1) [] [frac 1 2]
              (normal_draws zero (frac 1 1) 3 quiet_then_loud) 0 1
              (ts_data ts) 2).
Proof.
  eexists. split; [vm_compute; reflexivity|].
  apply (ARMA_without_AR_part three_dates "2020-01-01" "2020-01-03" "D"
           (frac 3 1) 1 [frac 1 2] (frac 1 1) quiet_then_loud);
    [vm_compute; reflexivity|simpl; lia].
Defined.

Lemma create_market_price_paths_witness :
  exists panel,
    create_market (frac 100 1) (frac 0 1) (frac 1 1) (frac 2 1) (frac 1 1) 2
                  counting = Ok panel /\
    nth 1 (nth 2 (values panel) []) zero
    = price_path (frac 100 1) (frac 1 1) (frac 1 1) 2 counting 1 2.
Proof.
  eexists. split; [vm_compute; reflexivity|].
  match goal with
  | |- context [values ?p] =>
      destruct (create_market_price_paths (frac 100 1) (frac 0 1) (frac 1 1)
                  (frac 2 1) (frac 1 1) 2 counting p)
        as (loc & Hloc & Hprice); [vm_compute; reflexivity|]
  end.
  vm_compute in Hloc. injection Hloc as <-.
  apply Hprice; simpl; lia.
Defined.

Lemma create_market_scenarios_independent_witness :
  exists panel1 panel2,
    create_market (frac 100 1) (frac 0 1) (frac 1 1) (frac 2 1) (frac 1 1) 2
                  counting = Ok panel1 /\
    create_market (frac 100 1) (frac 0 1) (frac 1 1) (frac 2 1) (frac 1 1) 2
                  counting_odd = Ok panel2 /\
    nth 1 (nth 2 (values panel1) []) zero
    = nth 1 (nth 2 (values panel2) []) zero.
Proof.
  eexists. eexists. split; [vm_compute; reflexivity|].
  split; [vm_compute; reflexivity|].
  apply (create_market_scenarios_independent (frac 100 1) (frac 0 1)
           (frac 1 1) (frac 2 1) (frac 1 1) 2 counting counting_odd);
    [vm_compute; reflexivity|vm_compute; reflexivity|simpl; lia| |simpl; lia].
  intros k Hk. unfold counting, counting_odd.
  replace (k * Z.to_nat 2 + 1) with (S (2 * k)) by lia.
  rewrite Nat.even_succ, Nat.odd_even. simpl.
  destruct k; [lia|]. reflexivity.
Defined.

Lemma set_market_names_labels_witness :
  one_date "2020-01-01" = Some 18262%Z /\
  known_interval "M" /\
  snd (set_market_names one_date one_asset_market "2020-01-01" "start" "M")
  = Ok tt.
Proof.
  split; [reflexivity|]. split; [right; left; reflexivity|].
  pose proof (set_market_names_labels one_date one_asset_market "2020-01-01"
                "start" "M" 18262 eq_refl (or_introl eq_refl)
                (or_intror (or_introl eq_refl))) as Hclaim.
  destruct (set_market_names one_date one_asset_market "2020-01-01" "start" "M")
    as [data' ended].
  apply Hclaim.
Defined.

Lemma set_market_names_end_gap_witness :
  one_date "2020-01-01" = Some 18262%Z /\
  known_interval "M" /\
  last (index (fst (set_market_names one_date one_asset_market "2020-01-01"
                      "end" "M")))
  = Some (PeriodLabel "M" (18262 - end_gap "M" 1)).
Proof.
  split; [reflexivity|]. split; [right; left; reflexivity|].
  apply (set_market_names_end_gap one_date one_asset_market "2020-01-01" "M"
           18262 eq_refl (or_intror (or_introl eq_refl))).
  simpl. lia.
Defined.

Lemma set_market_names_unknown_interval_witness :
  ~ known_interval "W" /\
  snd (set_market_names one_date one_asset_market "2020-01-01" "start" "W")
  = Raise (UnboundLocalError "date_series").
Proof.
  assert (Hweek : ~ known_interval "W")
    by (intros [Hw | [Hw | Hw]]; discriminate Hw).
  split; [exact Hweek|].
  pose proof (set_market_names_unknown_interval one_date one_asset_market
                "2020-01-01" "start" "W" (or_introl eq_refl) Hweek) as Hclaim.
  destruct (set_market_names one_date one_asset_market "2020-01-01" "start" "W")
    as [data' ended].
  apply Hclaim.
Defined.

Lemma set_market_names_unparsed_date_witness :
  one_date "01/01/2020" = None /\
  known_interval "D" /\
  snd (set_market_names one_date one_asset_market "01/01/2020" "end" "D")
  = Raise TypeError.
Proof.
  split; [reflexivity|]. split; [left; reflexivity|].
  pose proof (set_market_names_unparsed_date one_date one_asset_market
                "01/01/2020" "D" eq_refl (or_introl eq_refl)) as Hclaim.
  destruct (set_market_names one_date one_asset_market "01/01/2020" "end" "D")
    as [data' ended].
  apply Hclaim.
Defined.

Lemma market_pipeline_witness :
  exists panel panel' shares,
    create_market (frac 100 1) (frac 0 1) (frac 1 1) (frac 2 1) (frac 1 1) 2
                  counting = Ok panel /\
    set_market_names one_date panel "2020-01-01" "start" "D" = (panel', Ok tt) /\
    create_market_shares panel' (frac 1000 1) (frac 10 1) counting = Ok shares /\
    s_index shares = asset_names 2 /\
    length (s_values shares) = 2.
Proof.
  eexists. eexists. eexists.
  split; [vm_compute; reflexivity|].
  match goal with
  | |- set_market_names _ ?p _ _ _ = _ /\ _ =>
      assert (Hpanel : create_market (frac 100 1) (frac 0 1) (frac 1 1)
                         (frac 2 1) (frac 1 1) 2 counting = Ok p)
        by (vm_compute; reflexivity)
  end.
  split; [vm_compute; reflexivity|].
  match goal with
  | |- create_market_shares ?p' _ _ _ = _ /\ _ =>
      match type of Hpanel with
      | _ = Ok ?p =>
          assert (Hnames : set_market_names one_date p "2020-01-01" "start" "D"
                           = (p', Ok tt)) by (vm_compute; reflexivity)
      end
  end.
  split; [vm_compute; reflexivity|].
  match goal with
  | |- s_index ?sh = _ /\ _ =>
      match type of Hnames with
      | _ = (?p', _) =>
          assert (Hshares : create_market_shares p' (frac 1000 1) (frac 10 1)
                              counting = Ok sh) by (vm_compute; reflexivity)
      end
  end.
  destruct (market_pipeline one_date _ _ _ _ _ _ _ _ _ _ _ _ _ _ _ _
              Hpanel Hnames Hshares) as (Hindex & Hlen & _).
  split; [exact Hindex|exact Hlen].
Defined.

Lemma AutoRegressive_extends_witness :
  exists ts1 ts2,
    returned (AutoRegressive days_until "2020-01-01" "2020-01-03" "D"
                [frac 5 1] (frac 1 1) 1 [frac 1 2] (frac 1 1) counting)
    = Ok ts1 /\
    returned (AutoRegressive days_until "2020-01-01" "2020-01-05" "D"
                [frac 5 1] (frac 1 1) 1 [frac 1 2] (frac 1 1) counting)
    = Ok ts2 /\
    take 3 (ts_data ts2) = ts_data ts1.
Proof.
  eexists. eexists. split; [vm_compute; reflexivity|].
  split; [vm_compute; reflexivity|].
  apply (AutoRegressive_extends days_until "2020-01-01" "2020-01-03"
           "2020-01-05" "D" [frac 5 1] (frac 1 1) 1 [frac 1 2] (frac 1 1)
           counting);
    [simpl; lia|vm_compute; reflexivity|vm_compute; reflexivity].
Defined.
